(** * Operator control panel (frontend/src/App.js): state synchronisation

    A shallow embedding of the React component [App]: its four pieces of
    state ([config], [botStatus], [logs], [isLoading]), the event handler
    [handleInputChange], the log helper [addLog], the three asynchronous
    functions [fetchBotStatus], [startBot] and [stopBot], and the part of
    the returned element tree that decides which controls are enabled and
    which status fields are shown. *)

From Stdlib Require Import ZArith List Bool Lia.
From Stdlib Require Import Floats.SpecFloat.
From stdpp Require Import base strings gmap list.

Open Scope string_scope.
Set Warnings "-register-all".

(** ** JavaScript values *)

(** A JavaScript number is an IEEE 754 binary64 value; [spec_float] is the
    Standard Library's inductive description of such values. *)
Abbreviation number := spec_float.

(** The values the component handles: what [JSON.parse] produces, the
    strings and numbers of the form, and [undefined] for a missing
    property. An object is the list of its own properties. *)
Inductive jsval : Type :=
| VUndefined
| VNull
| VBool (b : bool)
| VNum (x : number)
| VStr (s : string)
| VArr (items : list jsval)
| VObj (props : list (string * jsval)).

(** What the JavaScript engine supplies and the source only calls. *)
Class Engine : Type := {
  (** the global [parseFloat], applied to the text of an input *)
  parseFloat : string -> number;
  (** Number::toString, used when a number is interpolated in a template *)
  numToString : number -> string;
  (** the message of the TypeError thrown when a property of [null] or
      [undefined] is read *)
  nullReadMessage : string -> string;
  (** the message of the TypeError thrown when an object cannot be
      converted to a primitive *)
  toPrimitiveMessage : string
}.

(** ToBoolean: the falsy values are [undefined], [null], [false], [+0],
    [-0], [NaN] and the empty string. *)
Definition truthy (v : jsval) : bool :=
  match v with
  | VUndefined | VNull => false
  | VBool b => b
  | VNum (S754_zero _) | VNum S754_nan => false
  | VNum _ => true
  | VStr EmptyString => false
  | VStr _ => true
  | VArr _ | VObj _ => true
  end.

(** [typeof v === 'number'] *)
Definition is_number (v : jsval) : bool :=
  match v with VNum _ => true | _ => false end.

(** [typeof v === 'string'] *)
Definition is_string (v : jsval) : bool :=
  match v with VStr _ => true | _ => false end.

(** Own property lookup in an object's property list. *)
Fixpoint own_prop (props : list (string * jsval)) (name : string) : option jsval :=
  match props with
  | [] => None
  | (k, v) :: rest => if String.eqb k name then Some v else own_prop rest name
  end.

(** Thrown values. [message] is what [error.message] reads. *)
Record error : Type := Error { err_name : string; message : string }.

(** The outcome of evaluating an expression that may throw. *)
Definition outcome (A : Type) : Type := error + A.

(** [v.name] for the property names the component reads ([detail],
    [running], [symbol], [best_bid], ...): none of them is inherited from a
    prototype, so on a primitive, an array or an object without the own
    property the read gives [undefined]; on [null] and [undefined] it throws
    a TypeError. *)
Definition get_prop `{Engine} (v : jsval) (name : string) : outcome jsval :=
  match v with
  | VUndefined | VNull => inl (Error "TypeError" (nullReadMessage name))
  | VObj props => inr (default VUndefined (own_prop props name))
  | _ => inr VUndefined
  end.

(** ToString, as a template literal applies it. It throws on an object that
    has an own [toString] property (a parsed JSON value is never callable),
    and so on an array that holds one. [None] stands for that TypeError. *)
Fixpoint to_string `{Engine} (v : jsval) : option string :=
  match v with
  | VUndefined => Some "undefined"
  | VNull => Some "null"
  | VBool true => Some "true"
  | VBool false => Some "false"
  | VNum x => Some (numToString x)
  | VStr s => Some s
  | VArr items =>
      (fix join (l : list jsval) : option string :=
         match l with
         | [] => Some EmptyString
         | x :: rest =>
             let elt := match x with
                        | VUndefined | VNull => Some EmptyString
                        | _ => to_string x
                        end in
             match elt, rest with
             | None, _ => None
             | Some s, [] => Some s
             | Some s, _ :: _ =>
                 match join rest with
                 | Some r => Some (s ++ "," ++ r)
                 | None => None
                 end
             end
         end) items
  | VObj props =>
      match own_prop props "toString" with
      | Some _ => None
      | None => Some "[object Object]"
      end
  end.

(** A template literal with one hole: [`prefix${v}`]. *)
Definition template `{Engine} (prefix : string) (v : jsval) : outcome string :=
  match to_string v with
  | Some s => inr (prefix ++ s)
  | None => inl (Error "TypeError" toPrimitiveMessage)
  end.

(** ** Component state *)

(** An entry of [logs]: [{ timestamp, message, type }]. *)
Record log_entry : Type := LogEntry {
  timestamp : string;
  log_message : string;
  log_type : string
}.

(** The four [useState] cells. [config] is a plain object used as a map
    from field name to value. *)
Record ui : Type := UI {
  config : gmap string jsval;
  botStatus : jsval;
  logs : list log_entry;
  isLoading : bool
}.

(** 0.001 and 0.05 as binary64 values. *)
Definition num_0_001 : number := S754_finite false 4611686018427388 (-62).
Definition num_0_05 : number := S754_finite false 7205759403792794 (-57).

Definition initial_config : gmap string jsval :=
  <["api_key" := VStr EmptyString]>
  (<["secret_key" := VStr EmptyString]>
  (<["symbol" := VStr "BTCUSDT"]>
  (<["buy_quantity" := VNum num_0_001]>
  (<["sell_quantity" := VNum num_0_001]>
  (<["max_price_deviation" := VNum num_0_05]> ∅))))).

Definition initial_status : jsval :=
  VObj [("running", VBool false); ("message", VStr EmptyString)].

Definition initial_ui : ui :=
  {| config := initial_config; botStatus := initial_status;
     logs := []; isLoading := false |}.

(** [config.name]: reading a field of the configuration object. *)
Definition config_get (c : gmap string jsval) (name : string) : jsval :=
  default VUndefined (c !! name).

(** ** handleInputChange *)

(** [e.target] of a change event: the input's [name], its current text
    [value] and its [type] attribute. *)
Record change_event : Type := ChangeEvent {
  ev_name : string;
  ev_value : string;
  ev_type : string
}.

(** [type === 'number' ? parseFloat(value) : value] *)
Definition coerce `{Engine} (e : change_event) : jsval :=
  if String.eqb (ev_type e) "number" then VNum (parseFloat (ev_value e))
  else VStr (ev_value e).

(** The updater given to [setConfig]: [{ ...prev, [name]: coerced }]. *)
Definition handleInputChange `{Engine} (e : change_event)
    (prev : gmap string jsval) : gmap string jsval :=
  <[ev_name e := coerce e]> prev.

(** The [type] attribute of each input of the form, by [name]. *)
Definition input_type (name : string) : option string :=
  if String.eqb name "api_key" then Some "password"
  else if String.eqb name "secret_key" then Some "password"
  else if String.eqb name "symbol" then Some "text"
  else if String.eqb name "buy_quantity" then Some "number"
  else if String.eqb name "sell_quantity" then Some "number"
  else if String.eqb name "max_price_deviation" then Some "number"
  else None.

(** A change event that one of the six inputs can fire. *)
Definition form_event (e : change_event) : Prop :=
  input_type (ev_name e) = Some (ev_type e).

(** The fields whose input has [type="number"]. *)
Definition numeric_field (name : string) : bool :=
  match input_type name with
  | Some t => String.eqb t "number"
  | None => false
  end.

(** Every form field is present; the numeric ones hold numbers, the others
    hold strings. *)
Definition config_typed (c : gmap string jsval) : Prop :=
  forall name t, input_type name = Some t ->
    exists v, c !! name = Some v /\
      if String.eqb t "number" then is_number v = true else is_string v = true.

(** ** addLog *)

(** [arr.slice(-k)]: the last [k] elements, all of them when there are
    fewer. *)
Definition slice_last {A : Type} (k : nat) (l : list A) : list A :=
  skipn (length l - k) l.

(** The updater given to [setLogs]: [[...prev.slice(-99), entry]]. *)
Definition push_log (prev : list log_entry) (entry : log_entry) : list log_entry :=
  slice_last 99 prev ++ [entry].

(** ** The network boundary *)

(** The three endpoints under [backendUrl]. *)
Inductive endpoint : Type := BotStatus | StartBot | StopBot.

(** A call of [fetch]: the endpoint, the method and the JSON body (the
    configuration object that [JSON.stringify] serialises), if any. *)
Record request : Type := Request {
  req_endpoint : endpoint;
  req_method : string;
  req_body : option (gmap string jsval)
}.

(** A response: its status code and what [response.json()] settles to,
    the parsed body or the error of a body that does not parse. *)
Record response : Type := Response {
  status_code : nat;
  json_body : outcome jsval
}.

(** [response.ok]: the status is in the range 200-299. *)
Definition ok (r : response) : bool :=
  ((200 <=? status_code r) && (status_code r <=? 299))%nat.

(** ** Asynchronous functions as command trees *)

(** The commands a function of the component issues. [Fetch] and [Json] are
    the two awaited promises (they settle to a value or to a rejection),
    [Now] reads the clock for a timestamp, the others are the state setters
    and [console.error]. *)
Inductive cmd : Type -> Type :=
| Fetch (rq : request) : cmd (outcome response)
| Json (r : response) : cmd (outcome jsval)
| Now : cmd string
| SetConfig (f : gmap string jsval -> gmap string jsval) : cmd unit
| SetBotStatus (v : jsval) : cmd unit
| SetLogs (f : list log_entry -> list log_entry) : cmd unit
| SetIsLoading (b : bool) : cmd unit
| ConsoleError (label : string) (e : error) : cmd unit.

(** A function body: it returns, throws, or issues a command and goes on
    with the command's answer. *)
Inductive prog (A : Type) : Type :=
| Ret (a : A)
| Throw (e : error)
| Vis {X : Type} (c : cmd X) (k : X -> prog A).

Arguments Ret {A} a.
Arguments Throw {A} e.
Arguments Vis {A X} c k.

Fixpoint bind {A B : Type} (p : prog A) (f : A -> prog B) : prog B :=
  match p with
  | Ret a => f a
  | Throw e => Throw e
  | Vis c k => Vis c (fun x => bind (k x) f)
  end.

Notation "'do' x <- p ; q" := (bind p (fun x => q))
  (at level 10, x name, p at level 100, q at level 200).

Definition call {X : Type} (c : cmd X) : prog X := Vis c Ret.

(** [await promise]: the value of a fulfilled promise, a throw of the
    reason of a rejected one. *)
Definition await {X : Type} (c : cmd (outcome X)) : prog X :=
  Vis c (fun o => match o with inl e => Throw e | inr x => Ret x end).

(** An expression that may throw, evaluated in place. *)
Definition eval {A : Type} (o : outcome A) : prog A :=
  match o with inl e => Throw e | inr a => Ret a end.

(** [try { p } catch (error) { h error }] *)
Fixpoint try_catch {A : Type} (p : prog A) (h : error -> prog A) : prog A :=
  match p with
  | Ret a => Ret a
  | Throw e => h e
  | Vis c k => Vis c (fun x => try_catch (k x) h)
  end.

(** [try { p } finally { f }]: [f] runs on both exits of [p], and the exit
    of [p] is kept unless [f] throws itself. *)
Fixpoint finally {A : Type} (p : prog A) (f : prog unit) : prog A :=
  match p with
  | Ret a => do _ <- f; Ret a
  | Throw e => do _ <- f; Throw e
  | Vis c k => Vis c (fun x => finally (k x) f)
  end.

(** ** The functions of the component *)

Section Component.
Context `{Engine}.

Definition status_request : request := Request BotStatus "GET" None.
Definition start_request (cfg : gmap string jsval) : request :=
  Request StartBot "POST" (Some cfg).
Definition stop_request : request := Request StopBot "POST" None.

Definition poll_label : string := "Error fetching bot status:".

Definition fetchBotStatus : prog unit :=
  try_catch
    (do response <- await (Fetch status_request);
     do status <- await (Json response);
     call (SetBotStatus status))
    (fun error => call (ConsoleError poll_label error)).

(** [addLog(message, type)]; every call site passes [type], so the default
    ['info'] is never used. *)
Definition addLog (msg type : string) : prog unit :=
  do timestamp <- call Now;
  call (SetLogs (fun prev => push_log prev (LogEntry timestamp msg type))).

(** [!config.api_key || !config.secret_key] *)
Definition keys_missing (cfg : gmap string jsval) : bool :=
  negb (truthy (config_get cfg "api_key")) || negb (truthy (config_get cfg "secret_key")).

(** [startBot], with [cfg] the [config] of the render whose handler runs. *)
Definition startBot (cfg : gmap string jsval) : prog unit :=
  if keys_missing cfg then
    addLog "Пожалуйста, введите API ключи" "error"
  else
    do _ <- call (SetIsLoading true);
    finally
      (try_catch
         (do response <- await (Fetch (start_request cfg));
          do result <- await (Json response);
          if ok response then
            do msg <- eval (template "Бот запущен для пары " (config_get cfg "symbol"));
            do _ <- addLog msg "success";
            fetchBotStatus
          else
            do detail <- eval (get_prop result "detail");
            do msg <- eval (template "Ошибка запуска: " detail);
            addLog msg "error")
         (fun error => addLog ("Ошибка соединения: " ++ message error) "error"))
      (call (SetIsLoading false)).

Definition stopBot : prog unit :=
  do _ <- call (SetIsLoading true);
  finally
    (try_catch
       (do response <- await (Fetch stop_request);
        do result <- await (Json response);
        if ok response then
          do _ <- addLog "Бот остановлен" "success";
          fetchBotStatus
        else
          do detail <- eval (get_prop result "detail");
          do msg <- eval (template "Ошибка остановки: " detail);
          addLog msg "error")
       (fun error => addLog ("Ошибка соединения: " ++ message error) "error"))
    (call (SetIsLoading false)).

End Component.

(** ** Running a function against the environment *)

(** The environment: how the [k]-th interaction with it is answered, for a
    request and for a reading of the clock. *)
Record world : Type := World {
  net : nat -> request -> outcome response;
  clock : nat -> string
}.

(** What can be observed of a run, in order. *)
Inductive event : Type :=
| ERequest (rq : request)
| ESettled (o : outcome response)
| EParsed (o : outcome jsval)
| EConfig (after : gmap string jsval)
| EBotStatus (after : jsval)
| ELogs (after : list log_entry)
| EIsLoading (after : bool)
| EConsole (label : string) (e : error).

Record run_result (A : Type) : Type := RunResult {
  value : outcome A;
  ticks : nat;
  final : ui;
  trace : list event
}.

Arguments RunResult {A}.
Arguments value {A}.
Arguments ticks {A}.
Arguments final {A}.
Arguments trace {A}.

Definition set_config (c : gmap string jsval) (s : ui) : ui :=
  {| config := c; botStatus := botStatus s; logs := logs s; isLoading := isLoading s |}.
Definition set_botStatus (v : jsval) (s : ui) : ui :=
  {| config := config s; botStatus := v; logs := logs s; isLoading := isLoading s |}.
Definition set_logs (l : list log_entry) (s : ui) : ui :=
  {| config := config s; botStatus := botStatus s; logs := l; isLoading := isLoading s |}.
Definition set_isLoading (b : bool) (s : ui) : ui :=
  {| config := config s; botStatus := botStatus s; logs := logs s; isLoading := b |}.

(** One command: its answer, the interactions used so far, the state after
    it and what it shows. *)
Definition handle {X : Type} (c : cmd X) (w : world) (n : nat) (s : ui)
    : X * nat * ui * list event :=
  match c in cmd X return X * nat * ui * list event with
  | Fetch rq => let o := net w n rq in (o, S n, s, [ERequest rq; ESettled o])
  | Json r => (json_body r, n, s, [EParsed (json_body r)])
  | Now => (clock w n, S n, s, [])
  | SetConfig f => (tt, n, set_config (f (config s)) s, [EConfig (f (config s))])
  | SetBotStatus v => (tt, n, set_botStatus v s, [EBotStatus v])
  | SetLogs f => (tt, n, set_logs (f (logs s)) s, [ELogs (f (logs s))])
  | SetIsLoading b => (tt, n, set_isLoading b s, [EIsLoading b])
  | ConsoleError label e => (tt, n, s, [EConsole label e])
  end.

(** A function body run to its end, with nothing else scheduled between
    its steps. *)
Fixpoint exec {A : Type} (p : prog A) (w : world) (n : nat) (s : ui) : run_result A :=
  match p with
  | Ret a => RunResult (inr a) n s []
  | Throw e => RunResult (inl e) n s []
  | Vis c k =>
      let '(x, n1, s1, evs) := handle c w n s in
      let r := exec (k x) w n1 s1 in
      RunResult (value r) (ticks r) (final r) (evs ++ trace r)
  end.

(** A list of calls made one after the other. *)
Fixpoint in_sequence (ps : list (prog unit)) : prog unit :=
  match ps with
  | [] => Ret tt
  | p :: rest => do _ <- p; in_sequence rest
  end.

(** The entries that a list of [addLog] calls, given as (message, type),
    adds when the first of them reads the clock at interaction [n]. *)
Fixpoint stamped (w : world) (n : nat) (calls : list (string * string)) : list log_entry :=
  match calls with
  | [] => []
  | (msg, type) :: rest => LogEntry (clock w n) msg type :: stamped w (S n) rest
  end.

(** ** The rendered controls and status grid *)

Section View.
Context `{Engine}.

(** A child of the status grid: a [status-item] element with its label and
    the value it shows, or the bare value that a guard [v && <element>]
    leaves when [v] is falsy. *)
Inductive child : Type :=
| StatusItem (label : string) (shown : jsval)
| Bare (v : jsval).

(** [{v && (<div className="status-item">...label...{v}</div>)}] *)
Definition guarded (v : jsval) (label : string) : child :=
  if truthy v then StatusItem label v else Bare v.

(** The part of the element tree the controller depends on: the [disabled]
    attribute of the two buttons and the children of the status grid. *)
Record view : Type := View {
  start_disabled : bool;
  stop_disabled : bool;
  status_grid : list child
}.

Definition and_then {A B : Type} (o : outcome A) (f : A -> outcome B) : outcome B :=
  match o with inl e => inl e | inr a => f a end.

(** [isLoading || botStatus.running] and [isLoading || !botStatus.running]:
    the property is read only when [isLoading] is false. *)
Definition disabled_attr (loading : bool) (status : jsval) (negate : bool) : outcome bool :=
  if loading then inr true
  else and_then (get_prop status "running")
         (fun running => inr (if negate then negb (truthy running) else truthy running)).

(** The render of [App], restricted to [view]. It throws where the source
    reads a property of [botStatus] and [botStatus] is [null]. *)
Definition render (s : ui) : outcome view :=
  let st := botStatus s in
  and_then (disabled_attr (isLoading s) st false) (fun d_start =>
  and_then (disabled_attr (isLoading s) st true) (fun d_stop =>
  and_then (get_prop st "running") (fun running =>
  and_then (get_prop st "symbol") (fun symbol =>
  and_then (get_prop st "best_bid") (fun best_bid =>
  and_then (get_prop st "best_ask") (fun best_ask =>
  and_then (get_prop st "spread") (fun spread =>
  and_then (get_prop st "initial_price") (fun initial_price =>
  inr {| start_disabled := d_start;
         stop_disabled := d_stop;
         status_grid :=
           [ StatusItem "Состояние:"
               (VStr (if truthy running then "🟢 Работает" else "🔴 Остановлен"));
             guarded symbol "Пара:";
             guarded best_bid "Лучшая покупка:";
             guarded best_ask "Лучшая продажа:";
             guarded spread "Спред:";
             guarded initial_price "Начальная цена:" ] |})))))))).

(** A status field is displayed when the grid has its [status-item]. *)
Definition displays (v : view) (label : string) : bool :=
  existsb (fun c => match c with
                    | StatusItem l _ => String.eqb l label
                    | Bare _ => false
                    end) (status_grid v).

(** A click on the start button: [onClick={startBot}] fires only when the
    tree was rendered and the button is not disabled. *)
Definition click_start (s : ui) : prog unit :=
  match render s with
  | inr v => if start_disabled v then Ret tt else startBot (config s)
  | inl _ => Ret tt
  end.

Definition click_stop (s : ui) : prog unit :=
  match render s with
  | inr v => if stop_disabled v then Ret tt else stopBot
  | inl _ => Ret tt
  end.

(** A change event on an input: [onChange={handleInputChange}]. *)
Definition change (e : change_event) : prog unit :=
  call (SetConfig (handleInputChange e)).

End View.

(** The requests issued during a run. *)
Definition requests (tr : list event) : list request :=
  omap (fun ev => match ev with ERequest rq => Some rq | _ => None end) tr.

(** The values given to [setLogs] during a run. *)
Definition log_updates (tr : list event) : list (list log_entry) :=
  omap (fun ev => match ev with ELogs l => Some l | _ => None end) tr.

(** What was written to the console during a run. *)
Definition console (tr : list event) : list (string * error) :=
  omap (fun ev => match ev with EConsole l e => Some (l, e) | _ => None end) tr.

(** ** The panel as a transition system *)

(** The functions run on one thread. A call runs until it awaits; it then
    waits, with the other calls that wait, until its promise settles, and
    runs again until its next [await] or its end. Between two such runs
    anything else may happen: the timer fires, the operator clicks or
    types, another promise settles. A function that awaits a call of
    another ([await fetchBotStatus()]) waits where the callee waits and
    goes on in the turn in which the callee ends.

    The panel is followed while it is mounted. A render that throws (a
    [null] snapshot) leaves a panel without usable buttons; what React
    does with the component after that is not part of this model. *)

(** The two commands that are awaited. *)
Definition suspends {X : Type} (c : cmd X) : bool :=
  match c with Fetch _ | Json _ => true | _ => false end.

(** What the call of [fetch] shows when the function reaches it. *)
Definition issued {X : Type} (c : cmd X) : list event :=
  match c with Fetch rq => [ERequest rq] | _ => [] end.

(** Where a run without suspension stops: at an [await], or at the end of
    the function. *)
Inductive stage : Type :=
| Parked (p : prog unit)
| Over (o : outcome unit).

Record advance_result : Type := Advanced {
  reached : stage;
  instant : nat;
  after : ui;
  shown : list event
}.

(** A function run up to its next [await]. *)
Fixpoint advance (p : prog unit) (w : world) (n : nat) (s : ui) : advance_result :=
  match p with
  | Ret a => Advanced (Over (inr a)) n s []
  | Throw e => Advanced (Over (inl e)) n s []
  | Vis c k =>
      if suspends c then Advanced (Parked (Vis c k)) n s (issued c)
      else
        let '(x, n1, s1, evs) := handle c w n s in
        let r := advance (k x) w n1 s1 in
        Advanced (reached r) (instant r) (after r) (evs ++ shown r)
  end.

(** The promise a waiting function awaits settles: the function goes on
    with the outcome. A fetch settles as the network decides at that
    instant, the reading of a body as the response has it. *)
Definition settle (p : prog unit) (w : world) (n : nat) : option (prog unit * list event) :=
  match p with
  | Vis c k =>
      match c in cmd X return (X -> prog unit) -> option (prog unit * list event) with
      | Fetch rq => fun k => Some (k (net w n rq), [ESettled (net w n rq)])
      | Json r => fun k => Some (k (json_body r), [EParsed (json_body r)])
      | _ => fun _ => None
      end k
  | _ => None
  end.

(** The panel: the state cells, the functions that wait on a promise, the
    count of instants and everything shown so far. *)
Record panel : Type := Panel {
  now : nat;
  cells : ui;
  pending : list (prog unit);
  history : list event
}.

(** What can happen next. *)
Inductive action : Type :=
| Tick                        (* the interval timer calls fetchBotStatus *)
| ClickStart                  (* a click on the start button *)
| ClickStop                   (* a click on the stop button *)
| Change (e : change_event)   (* a change event on an input *)
| Settle (i : nat).           (* the promise of the i-th waiting function settles *)

Section Panel.
Context `{Engine}.

(** A handler is called: it runs to its first [await] and waits there, or
    it ends at once. Every action takes place at an instant of its own, so
    that the network may answer the same request differently each time. *)
Definition spawn (p : prog unit) (w : world) (pn : panel) : panel :=
  let r := advance p w (S (now pn)) (cells pn) in
  {| now := instant r;
     cells := after r;
     pending := match reached r with
                | Parked q => pending pn ++ [q]
                | Over _ => pending pn
                end;
     history := history pn ++ shown r |}.

Definition react (w : world) (a : action) (pn : panel) : panel :=
  match a with
  | Tick => spawn fetchBotStatus w pn
  | ClickStart => spawn (click_start (cells pn)) w pn
  | ClickStop => spawn (click_stop (cells pn)) w pn
  | Change e => spawn (change e) w pn
  | Settle i =>
      match pending pn !! i with
      | None => pn
      | Some p =>
          match settle p w (S (now pn)) with
          | None => pn
          | Some (q, evs) =>
              let r := advance q w (S (S (now pn))) (cells pn) in
              {| now := instant r;
                 cells := after r;
                 pending := match reached r with
                            | Parked q' => <[i := q']> (pending pn)
                            | Over _ => delete i (pending pn)
                            end;
                 history := history pn ++ evs ++ shown r |}
          end
      end
  end.

(** The panel after a list of actions, the first of them first. *)
Definition react_all (w : world) (acts : list action) (pn : panel) : panel :=
  fold_left (fun pn a => react w a pn) acts pn.

Definition initial_panel : panel :=
  {| now := 0; cells := initial_ui; pending := []; history := [] |}.

End Panel.

(** A request to start or to stop the bot. *)
Definition is_command (rq : request) : bool :=
  match req_endpoint rq with
  | BotStatus => false
  | StartBot | StopBot => true
  end.

(** A waiting function whose start or stop request has not been answered. *)
Definition awaits_command (p : prog unit) : bool :=
  match p with
  | Vis c _ => match c with Fetch rq => is_command rq | _ => false end
  | _ => false
  end.

(** A function stopped at an [await]. *)
Definition waiting (p : prog unit) : bool :=
  match p with
  | Vis c _ => suspends c
  | _ => false
  end.

(** Commands a function may be barred from. *)
Definition writes_flag {X : Type} (c : cmd X) : bool :=
  match c with SetIsLoading _ => true | _ => false end.

Definition sends_command {X : Type} (c : cmd X) : bool :=
  match c with Fetch rq => is_command rq | _ => false end.

(** No run of the function issues a command that [bad] marks. *)
Inductive free_of (bad : forall X : Type, cmd X -> bool) : prog unit -> Prop :=
| free_ret (a : unit) : free_of bad (Ret a)
| free_throw (e : error) : free_of bad (Throw e)
| free_vis (X : Type) (c : cmd X) (k : X -> prog unit) :
    bad X c = false -> (forall x, free_of bad (k x)) -> free_of bad (Vis c k).

(** A function that neither writes [isLoading] nor sends a start or stop
    request: the poll, a change handler, a refused start. *)
Definition bystander : prog unit -> Prop :=
  free_of (fun X c => writes_flag c || sends_command c).

(** What is left to run of a start or stop after [setIsLoading(true)]: a
    body that does not write [isLoading], inside
    [try { ... } finally { setIsLoading(false) }]. *)
Definition releasing (p : prog unit) : Prop :=
  exists body, free_of (@writes_flag) body /\
               p = finally body (call (SetIsLoading false)).

(** How many of the tags are set. *)
Fixpoint holders (tags : list bool) : nat :=
  match tags with
  | [] => 0
  | t :: rest => (if t then 1 else 0) + holders rest
  end.

(** A waiting function is a start or stop that will release the flag, or a
    bystander. *)
Definition tagged (t : bool) (p : prog unit) : Prop :=
  if t then releasing p else bystander p.

(** The gate: the waiting functions are bystanders, except for one start or
    stop exactly when [isLoading] is true. *)
Definition gate (pn : panel) : Prop :=
  exists tags : list bool,
    Forall2 tagged tags (pending pn) /\
    holders tags = if isLoading (cells pn) then 1 else 0.

(** ** Sample data for the examples *)

(** An engine that answers for the few numbers the examples use. *)
Definition sample_engine : Engine :=
  {| parseFloat := fun s =>
       if String.eqb s "0" then S754_zero false
       else if String.eqb s "0.05" then num_0_05
       else if String.eqb s "0.001" then num_0_001
       else if String.eqb s "0.9" then S754_finite false 8106479329266893 (-53)
       else S754_nan;
     numToString := fun x =>
       match x with
       | S754_zero _ => "0"
       | S754_nan => "NaN"
       | S754_infinity false => "Infinity"
       | S754_infinity true => "-Infinity"
       | S754_finite _ m e =>
           if (Pos.eqb m 4611686018427388 && Z.eqb e (-62))%bool then "0.001"
           else if (Pos.eqb m 7205759403792794 && Z.eqb e (-57))%bool then "0.05"
           else if (Pos.eqb m 8106479329266893 && Z.eqb e (-53))%bool then "0.9"
           else "(finite)"
       end;
     nullReadMessage := fun name =>
       "Cannot read properties of null (reading '" ++ name ++ "')";
     toPrimitiveMessage := "Cannot convert object to primitive value" |}.

(** A configuration with both keys entered and the pair ETHUSDT. *)
Definition sample_config : gmap string jsval :=
  <["api_key" := VStr "k1"]>
  (<["secret_key" := VStr "s1"]>
  (<["symbol" := VStr "ETHUSDT"]> initial_config)).

Definition running_status : jsval :=
  VObj [("running", VBool true); ("message", VStr "Bot is running")].

(** A backend that accepts every command and reports a running bot. *)
Definition accepting_world : world :=
  {| net := fun _ rq =>
       match req_endpoint rq with
       | BotStatus => inr (Response 200 (inr running_status))
       | _ => inr (Response 200 (inr (VObj [("message", VStr "ok")])))
       end;
     clock := fun _ => "12:00:00" |}.

(** A backend that answers every request with the given response. *)
Definition constant_world (r : response) : world :=
  {| net := fun _ _ => inr r; clock := fun _ => "12:00:00" |}.

(** A network that cannot be reached. *)
Definition unreachable_world : world :=
  {| net := fun _ _ => inl (Error "TypeError" "Failed to fetch");
     clock := fun _ => "12:00:00" |}.

(** 150 calls of [addLog], numbered by the length of their message. *)
Definition sample_calls : list (string * string) :=
  map (fun i => (String.concat EmptyString (repeat "x" i), "info")) (seq 0 150).

(** The operator types both keys and the pair, clicks start twice in a
    row, and the start and its poll are then answered. *)
Definition double_click : list action :=
  [Change (ChangeEvent "api_key" "k1" "password");
   Change (ChangeEvent "secret_key" "s1" "password");
   Change (ChangeEvent "symbol" "ETHUSDT" "text");
   ClickStart; ClickStart;
   Settle 0; Settle 0; Settle 0; Settle 0].

(** ** The rest of the render *)

Section Sections.
Context `{Engine}.

(** What React accepts among the children of an element: text, numbers,
    booleans, [null], [undefined] and arrays of these. An object that is
    not an element is refused, alone or inside an array. *)
Fixpoint renderable (v : jsval) : bool :=
  match v with
  | VObj _ => false
  | VArr items =>
      (fix all (l : list jsval) : bool :=
         match l with
         | [] => true
         | x :: rest => renderable x && all rest
         end) items
  | _ => true
  end.

(** The error React throws for such an object (its message, without the
    description of the object that follows it). *)
Definition child_refused : error :=
  Error "Error" "Objects are not valid as a React child".

(** [{v}] among the children of an element. *)
Definition as_child (v : jsval) : outcome jsval :=
  if renderable v then inr v else inl child_refused.

(** The value a child of the status grid puts among the children: the
    value its item shows, or the bare value of its guard. *)
Definition child_value (c : child) : jsval :=
  match c with
  | StatusItem _ v => v
  | Bare v => v
  end.

(** React going through the children of the status grid. *)
Fixpoint check_children (l : list child) : outcome unit :=
  match l with
  | [] => inr tt
  | c :: rest => and_then (as_child (child_value c)) (fun _ => check_children rest)
  end.

(** An order of the orders section: the class of its element and the two
    values it shows, [order.price] and [order.orderId]. *)
Record order_item : Type := OrderItem {
  order_class : string;
  order_price : jsval;
  order_id : jsval
}.

(** A child of the orders section: an [order-item] element, or the bare
    falsy value its guard leaves. *)
Inductive order_child : Type :=
| OrderShown (item : order_item)
| OrderBare (v : jsval).

(** [{order && (<div className=cls> ... {order.price} ... {order.orderId}
    </div>)}], with [order] read from the snapshot under [field]; the two
    values are children of the item. (The bare value of a guard is falsy,
    and so never an object.) *)
Definition order_guard (status : jsval) (field cls : string) : outcome order_child :=
  and_then (get_prop status field) (fun order =>
  if truthy order then
    and_then (get_prop status field) (fun o1 =>
    and_then (get_prop o1 "price") (fun p =>
    and_then (as_child p) (fun price =>
    and_then (get_prop status field) (fun o2 =>
    and_then (get_prop o2 "orderId") (fun i =>
    and_then (as_child i) (fun id =>
    inr (OrderShown (OrderItem cls price id))))))))
  else inr (OrderBare order)).

(** What stands where the orders section goes: the section with its two
    children, or the bare falsy value of the guard. *)
Inductive orders_child : Type :=
| OrdersSection (buy sell : order_child)
| OrdersBare (v : jsval).

(** [{(botStatus.current_buy_order || botStatus.current_sell_order) &&
    (<div className="orders-section"> ... </div>)}]; the sell order is read
    for the guard only when the buy order is falsy. *)
Definition render_orders (status : jsval) : outcome orders_child :=
  and_then (get_prop status "current_buy_order") (fun buy =>
  and_then (if truthy buy then inr buy
            else get_prop status "current_sell_order") (fun either =>
  if truthy either then
    and_then (order_guard status "current_buy_order" "order-item buy-order") (fun b =>
    and_then (order_guard status "current_sell_order" "order-item sell-order") (fun s =>
    inr (OrdersSection b s)))
  else inr (OrdersBare either))).

(** An element of the log list: its [key], its class and the two texts. *)
Record log_item : Type := LogItem {
  item_key : nat;
  item_class : string;
  item_time : string;
  item_message : string
}.

Inductive logs_view : Type :=
| NoLogs (text : string)
| LogItems (items : list log_item).

(** [logs.length === 0 ? <p>Журнал пуст</p> : logs.map((log, index) =>
    <div key={index} className={`log-item ${log.type}`}> ... </div>)] *)
Definition render_logs (l : list log_entry) : logs_view :=
  if Nat.eqb (length l) 0 then NoLogs "Журнал пуст"
  else LogItems (imap (fun index log =>
                         LogItem index ("log-item " ++ log_type log)
                                 (timestamp log) (log_message log)) l).

(** The texts of the two buttons. *)
Definition start_label (loading : bool) : string :=
  if loading then "⏳ Запуск..." else "▶️ Запустить бота".
Definition stop_label (loading : bool) : string :=
  if loading then "⏳ Остановка..." else "⏹️ Остановить бота".

(** Everything of the element tree that depends on the state, but for the
    inputs of the form, in the order in which the source evaluates it, and
    as React renders it: the render throws where the source reads a
    property of a [null] snapshot, and where React finds an object among
    the children. *)
Record app_view : Type := AppView {
  controls : view;
  start_text : string;
  stop_text : string;
  orders : orders_child;
  log_list : logs_view
}.

Definition render_app (s : ui) : outcome app_view :=
  and_then (render s) (fun v =>
  and_then (check_children (status_grid v)) (fun _ =>
  and_then (render_orders (botStatus s)) (fun o =>
  inr {| controls := v;
         start_text := start_label (isLoading s);
         stop_text := stop_label (isLoading s);
         orders := o;
         log_list := render_logs (logs s) |}))).

End Sections.

(** ** Properties of all the commands of a function *)

(** Every command that some run of the function issues satisfies [P]. *)
Inductive every (P : forall X : Type, cmd X -> Prop) : prog unit -> Prop :=
| every_ret (a : unit) : every P (Ret a)
| every_throw (e : error) : every P (Throw e)
| every_vis (X : Type) (c : cmd X) (k : X -> prog unit) :
    P X c -> (forall x, every P (k x)) -> every P (Vis c k).

(** The command leaves the log within its capacity, whatever the log was. *)
Definition log_within_capacity (X : Type) (c : cmd X) : Prop :=
  match c with
  | SetLogs f => forall l, length (f l) <= 100
  | _ => True
  end.

(** The command is not [setConfig]. *)
Definition not_setConfig (X : Type) (c : cmd X) : Prop :=
  match c with
  | SetConfig _ => False
  | _ => True
  end.

Section Handlers.
Context `{Engine}.

(** The function an action calls, for the actions that call one. *)
Definition handler_of (a : action) (s : ui) : prog unit :=
  match a with
  | Tick => fetchBotStatus
  | ClickStart => click_start s
  | ClickStop => click_stop s
  | Change e => change e
  | Settle _ => Ret tt
  end.

End Handlers.

(** The change events among a list of actions, in order. *)
Definition edits (acts : list action) : list change_event :=
  omap (fun a => match a with Change e => Some e | _ => None end) acts.

(** The request gets no usable answer: the fetch is rejected, or the body
    of the response does not parse; [e] is what is thrown. *)
Definition failed (w : world) (n : nat) (rq : request) (e : error) : Prop :=
  net w n rq = inl e \/
  exists resp, net w n rq = inr resp /\ json_body resp = inl e.

(** The optional fields of the status grid: the property read from the
    snapshot and the label of its item. *)
Definition optional_fields : list (string * string) :=
  [("symbol", "Пара:"); ("best_bid", "Лучшая покупка:");
   ("best_ask", "Лучшая продажа:"); ("spread", "Спред:");
   ("initial_price", "Начальная цена:")].

Section Refused.
Context `{Engine}.

(** The snapshot gives the render an object to show: a truthy optional
    field of the grid, or the [price] or [orderId] of a truthy order, that
    React refuses as a child. *)
Definition shows_object (status : jsval) : Prop :=
  (exists field label x,
     (field, label) ∈ optional_fields /\
     get_prop status field = inr x /\ truthy x = true /\ renderable x = false) \/
  (exists field name order x,
     field ∈ ["current_buy_order"; "current_sell_order"] /\
     name ∈ ["price"; "orderId"] /\
     get_prop status field = inr order /\ truthy order = true /\
     get_prop order name = inr x /\ renderable x = false).

End Refused.

(** ** The state along a run *)





(** ** More sample data *)

(** A log that is full: 100 entries. *)
Definition full_log : list log_entry :=
  map (fun i => LogEntry "12:00:00" (String.concat EmptyString (repeat "x" i)) "info")
      (seq 0 100).

(** A snapshot of a running bot with a buy order and a zero spread. *)
Definition trading_status : jsval :=
  VObj [("running", VBool true); ("message", VStr "ok");
        ("symbol", VStr "ETHUSDT");
        ("best_bid", VNum (S754_finite false 8106479329266893 (-53)));
        ("spread", VNum (S754_zero false));
        ("current_buy_order",
         VObj [("price", VStr "0.9"); ("orderId", VStr "A1")])].

(** * Properties *)

(** ** Running composed bodies *)

Lemma exec_bind {A B : Type} (p : prog A) (f : A -> prog B) w n s :
  exec (bind p f) w n s =
    let r := exec p w n s in
    match value r with
    | inl e => RunResult (inl e) (ticks r) (final r) (trace r)
    | inr a =>
        let r2 := exec (f a) w (ticks r) (final r) in
        RunResult (value r2) (ticks r2) (final r2) (trace r ++ trace r2)
    end.
Proof.
  revert n s. induction p as [a | e | X c k IH]; intros n s; simpl.
  - by destruct (exec (f a) w n s).
  - done.
  - destruct (handle c w n s) as [[[x n1] s1] evs]. simpl.
    rewrite IH. simpl. destruct (value (exec (k x) w n1 s1)); simpl; [done |].
    by rewrite app_assoc.
Qed.

Lemma exec_try_catch {A : Type} (p : prog A) (h : error -> prog A) w n s :
  exec (try_catch p h) w n s =
    let r := exec p w n s in
    match value r with
    | inl e =>
        let r2 := exec (h e) w (ticks r) (final r) in
        RunResult (value r2) (ticks r2) (final r2) (trace r ++ trace r2)
    | inr a => RunResult (inr a) (ticks r) (final r) (trace r)
    end.
Proof.
  revert n s. induction p as [a | e | X c k IH]; intros n s; simpl.
  - done.
  - by destruct (exec (h e) w n s).
  - destruct (handle c w n s) as [[[x n1] s1] evs]. simpl.
    rewrite IH. simpl. destruct (value (exec (k x) w n1 s1)); simpl; [| done].
    by rewrite app_assoc.
Qed.

(** [finally { setIsLoading(false) }] keeps the exit of the body, adds the
    release as the last thing the run shows, and leaves the flag false. *)
Lemma exec_finally_release {A : Type} (p : prog A) w n s :
  let r := exec p w n s in
  exec (finally p (call (SetIsLoading false))) w n s =
    RunResult (value r) (ticks r) (set_isLoading false (final r))
              (trace r ++ [EIsLoading false]).
Proof.
  revert n s. induction p as [a | e | X c k IH]; intros n s; simpl.
  - done.
  - done.
  - destruct (handle c w n s) as [[[x n1] s1] evs]. simpl.
    rewrite IH. simpl. by rewrite app_assoc.
Qed.

Lemma exec_addLog msg type w n s :
  exec (addLog msg type) w n s =
    let l := push_log (logs s) (LogEntry (clock w n) msg type) in
    RunResult (inr tt) (S n) (set_logs l s) [ELogs l].
Proof. reflexivity. Qed.

(** ** The event log as a ring of 100 entries *)

Lemma push_log_slice prev entry :
  push_log prev entry = slice_last 100 (prev ++ [entry]).
Proof.
  unfold push_log, slice_last. rewrite length_app. simpl.
  replace (length prev + 1 - 100) with (length prev - 99) by lia.
  rewrite drop_app_le by lia. done.
Qed.

Lemma slice_last_length {A : Type} k (l : list A) :
  length (slice_last k l) = min k (length l).
Proof. unfold slice_last. rewrite length_drop. lia. Qed.

Lemma slice_last_absorb {A : Type} k (l r : list A) :
  slice_last k (slice_last k l ++ r) = slice_last k (l ++ r).
Proof.
  unfold slice_last. rewrite !length_app, length_drop.
  rewrite !drop_app, drop_drop, length_drop. f_equal; f_equal; lia.
Qed.

(** Pushing a run of entries keeps the last 100 of everything pushed on a
    log that was within the bound. *)
Lemma push_all_slice (entries prev : list log_entry) :
  length prev <= 100 ->
  fold_left push_log entries prev = slice_last 100 (prev ++ entries).
Proof.
  revert prev. induction entries as [| e entries IH]; intros prev Hlen; simpl.
  - rewrite app_nil_r. unfold slice_last.
    replace (length prev - 100) with 0 by lia. done.
  - rewrite IH.
    + rewrite push_log_slice, slice_last_absorb. by rewrite <- app_assoc.
    + rewrite push_log_slice, slice_last_length. lia.
Qed.

Lemma exec_addLog_sequence (calls : list (string * string)) w n s :
  let r := exec (in_sequence (map (fun c => addLog c.1 c.2) calls)) w n s in
  value r = inr tt /\
  ticks r = n + length calls /\
  logs (final r) = fold_left push_log (stamped w n calls) (logs s).
Proof.
  revert n s. induction calls as [| [msg type] calls IH]; intros n s.
  - simpl. split_and!; [done | lia | done].
  - cbn [map in_sequence]. rewrite exec_bind, exec_addLog. simpl.
    destruct (IH (S n) (set_logs (push_log (logs s) (LogEntry (clock w n) msg type)) s))
      as (Hv & Ht & Hl).
    split_and!; [done | lia | done].
Qed.

Lemma stamped_length w n calls : length (stamped w n calls) = length calls.
Proof.
  revert n. induction calls as [| [msg type] calls IH]; intros n; simpl; [done |].
  by rewrite IH.
Qed.

(** C2: from an empty log, 150 calls of [addLog] in sequence leave exactly
    100 entries, which are the last 100 of the entries added, in the order
    they were added; and a call on a full log drops only its oldest entry. *)
Theorem addLog_ring_bound (calls : list (string * string)) w n s :
  logs s = [] ->
  length calls = 150 ->
  let r := exec (in_sequence (map (fun c => addLog c.1 c.2) calls)) w n s in
  length (logs (final r)) = 100 /\
  logs (final r) = drop 50 (stamped w n calls) /\
  (forall msg type,
     logs (final (exec (addLog msg type) w (ticks r) (final r))) =
       (tail (logs (final r)) ++ [LogEntry (clock w (ticks r)) msg type])%list).
Proof.
  intros Hempty Hlen r.
  destruct (exec_addLog_sequence calls w n s) as (_ & _ & Hlogs).
  fold r in Hlogs. rewrite Hempty, push_all_slice in Hlogs by (simpl; lia).
  simpl in Hlogs. unfold slice_last in Hlogs.
  rewrite stamped_length, Hlen in Hlogs. simpl in Hlogs.
  assert (Hsize : length (logs (final r)) = 100).
  { rewrite Hlogs, length_drop, stamped_length. lia. }
  split_and!; [done | done |].
  intros msg type. rewrite exec_addLog. simpl.
  unfold push_log, slice_last. rewrite Hsize. simpl.
  by destruct (logs (final r)).
Qed.

Lemma addLog_ring_bound_witness :
  let r := exec (in_sequence (map (fun c => addLog c.1 c.2) sample_calls))
             accepting_world 0 initial_ui in
  length (logs (final r)) = 100 /\
  logs (final r) = drop 50 (stamped accepting_world 0 sample_calls).
Proof.
  destruct (addLog_ring_bound sample_calls accepting_world 0 initial_ui)
    as (H1 & H2 & _); [reflexivity | reflexivity |].
  exact (conj H1 H2).
Defined.

(** ** The configuration keeps its field types *)

Section Configuration.
Context `{Engine}.

Lemma coerce_form_event (e : change_event) :
  form_event e ->
  coerce e = if numeric_field (ev_name e) then VNum (parseFloat (ev_value e))
             else VStr (ev_value e).
Proof.
  unfold form_event, coerce, numeric_field. by intros ->.
Qed.

Lemma handleInputChange_typed (e : change_event) (c : gmap string jsval) :
  form_event e -> config_typed c -> config_typed (handleInputChange e c).
Proof.
  intros He Hc name t Hname. unfold handleInputChange.
  destruct (decide (ev_name e = name)) as [<- | Hne].
  - rewrite lookup_insert_eq. eexists; split; [done |].
    unfold form_event in He. rewrite He in Hname. injection Hname as <-.
    unfold coerce. by destruct (String.eqb (ev_type e) "number").
  - rewrite lookup_insert_ne by done. by apply Hc.
Qed.

Lemma initial_config_typed : config_typed initial_config.
Proof.
  intros name t. unfold input_type.
  repeat match goal with
         | |- context [String.eqb name ?k] =>
             destruct (String.eqb_spec name k) as [-> | _];
             [intros [= <-]; eexists; split; reflexivity |]
         end.
  done.
Qed.

Lemma exec_changes (evs : list change_event) w n s :
  let r := exec (in_sequence (map change evs)) w n s in
  value r = inr tt /\
  config (final r) = fold_left (fun c e => handleInputChange e c) evs (config s) /\
  requests (trace r) = [].
Proof.
  revert s. induction evs as [| e evs IH]; intros s; [done |].
  cbn [map in_sequence]. rewrite exec_bind. simpl.
  destruct (IH (set_config (handleInputChange e (config s)) s)) as (Hv & Hc & Hr).
  split_and!; [done | done | done].
Qed.

(** What a list of changes leaves in a field: what the last change of that
    field stores, or what was there when no change names the field. *)
Lemma fold_changes_lookup (evs : list change_event) (c : gmap string jsval)
    (name : string) :
  Forall form_event evs ->
  fold_left (fun c e => handleInputChange e c) evs c !! name =
    match last (filter (fun e => ev_name e = name) evs) with
    | Some e => Some (if numeric_field name then VNum (parseFloat (ev_value e))
                      else VStr (ev_value e))
    | None => c !! name
    end.
Proof.
  induction evs as [| e evs IH] using rev_ind; intros Hevs; [done |].
  apply Forall_app in Hevs as [Hevs He]. rewrite Forall_singleton in He.
  rewrite fold_left_app, filter_app. simpl. unfold handleInputChange at 1.
  rewrite filter_cons, filter_nil. destruct (decide (ev_name e = name)) as [<- | Hne].
  - by rewrite last_snoc, lookup_insert_eq, coerce_form_event.
  - rewrite app_nil_r, lookup_insert_ne by done. by apply IH.
Qed.

(** C8: a run of change events of the form leaves in the configuration
    exactly what the updater of [handleInputChange] computes for them in
    order. Each field then holds what its last change stores, [parseFloat]
    of the text when the field's input is numeric and the text itself
    otherwise, with no clamping, or what it held when no change names it.
    So every numeric field holds a number and every other field a
    string. *)
Theorem config_numeric_fields_are_numbers (evs : list change_event) w n s :
  config_typed (config s) ->
  Forall form_event evs ->
  let r := exec (in_sequence (map change evs)) w n s in
  config (final r) = fold_left (fun c e => handleInputChange e c) evs (config s) /\
  (forall name,
     config (final r) !! name =
       match last (filter (fun e => ev_name e = name) evs) with
       | Some e => Some (if numeric_field name then VNum (parseFloat (ev_value e))
                         else VStr (ev_value e))
       | None => config s !! name
       end) /\
  (forall name, numeric_field name = true ->
     exists x, config (final r) !! name = Some (VNum x)) /\
  config_typed (config (final r)) /\
  (forall e c, form_event e ->
     handleInputChange e c !! ev_name e =
       Some (if numeric_field (ev_name e) then VNum (parseFloat (ev_value e))
             else VStr (ev_value e)) /\
     forall name, name <> ev_name e -> handleInputChange e c !! name = c !! name).
Proof.
  intros Hs Hevs r.
  destruct (exec_changes evs w n s) as (_ & Hc & _). fold r in Hc.
  assert (Htyped : config_typed (config (final r))).
  { rewrite Hc. clear r Hc. generalize dependent (config s).
    induction Hevs as [| e evs He _ IH]; intros c Hc; [done |].
    simpl. apply IH. by apply handleInputChange_typed. }
  split_and!; [done | | | done |].
  - intros name. rewrite Hc. by apply fold_changes_lookup.
  - intros name Hnum. unfold numeric_field in Hnum.
    destruct (input_type name) as [t |] eqn:Ht; [| done].
    destruct (Htyped name t Ht) as (v & Hv & Hkind). rewrite Hnum in Hkind.
    destruct v; try done. by eexists.
  - intros e c He. unfold handleInputChange. split.
    + by rewrite lookup_insert_eq, coerce_form_event.
    + intros name Hne. by rewrite lookup_insert_ne.
Qed.

End Configuration.

Lemma config_numeric_fields_are_numbers_witness :
  let evs := [ChangeEvent "max_price_deviation" "0.05" "number";
              ChangeEvent "symbol" "ETHUSDT" "text";
              ChangeEvent "max_price_deviation" "0.9" "number"] in
  let r := exec (in_sequence (map (@change sample_engine) evs))
             accepting_world 0 initial_ui in
  Forall form_event evs /\
  config (final r) !! "max_price_deviation" =
    Some (VNum (S754_finite false 8106479329266893 (-53))) /\
  config (final r) !! "symbol" = Some (VStr "ETHUSDT") /\
  config (final r) !! "buy_quantity" = Some (VNum num_0_001).
Proof.
  intros evs r.
  assert (Hevs : Forall form_event evs) by (repeat constructor).
  split; [exact Hevs |].
  destruct (@config_numeric_fields_are_numbers sample_engine evs
              accepting_world 0 initial_ui initial_config_typed Hevs)
    as (_ & Hlast & _).
  split_and!; rewrite Hlast; reflexivity.
Defined.

(** ** The status poll *)

Section Lifecycle.
Context `{Engine}.

(** The three ways a poll ends. *)
Lemma exec_fetchBotStatus w n s :
  exec fetchBotStatus w n s =
    match net w n status_request with
    | inl e =>
        RunResult (inr tt) (S n) s
          [ERequest status_request; ESettled (inl e); EConsole poll_label e]
    | inr resp =>
        match json_body resp with
        | inl e =>
            RunResult (inr tt) (S n) s
              [ERequest status_request; ESettled (inr resp); EParsed (inl e);
               EConsole poll_label e]
        | inr v =>
            RunResult (inr tt) (S n) (set_botStatus v s)
              [ERequest status_request; ESettled (inr resp); EParsed (inr v);
               EBotStatus v]
        end
    end.
Proof.
  unfold fetchBotStatus. simpl.
  destruct (net w n status_request) as [e | resp]; simpl; [done |].
  by destruct (json_body resp).
Qed.

(** A poll whose request fails or whose body does not parse leaves the
    whole state as it was and writes only to the console. *)
Lemma fetchBotStatus_failure_is_silent w n s :
  (forall resp, net w n status_request = inr resp -> exists e, json_body resp = inl e) ->
  let r := exec fetchBotStatus w n s in
  final r = s /\ log_updates (trace r) = [] /\
  exists e, console (trace r) = [(poll_label, e)].
Proof.
  intros Hfail. rewrite exec_fetchBotStatus.
  destruct (net w n status_request) as [e | resp] eqn:Hnet; simpl.
  - split_and!; [done | done | by eexists].
  - destruct (Hfail resp eq_refl) as [e ->]. simpl.
    split_and!; [done | done | by eexists].
Qed.

(** A poll never touches the log or the in-flight flag, and never throws. *)
Lemma fetchBotStatus_keeps_log_and_flag w n s :
  let r := exec fetchBotStatus w n s in
  value r = inr tt /\ logs (final r) = logs s /\ isLoading (final r) = isLoading s /\
  config (final r) = config s /\ log_updates (trace r) = [].
Proof.
  rewrite exec_fetchBotStatus.
  destruct (net w n status_request) as [e | resp]; simpl; [done |].
  by destruct (json_body resp).
Qed.

(** The status code of the response plays no part: a body that parses
    becomes the snapshot, and nothing is reported. *)
Lemma fetchBotStatus_ignores_status_code w n s resp v :
  net w n status_request = inr resp ->
  json_body resp = inr v ->
  let r := exec fetchBotStatus w n s in
  botStatus (final r) = v /\ console (trace r) = [] /\ log_updates (trace r) = [].
Proof.
  intros Hnet Hjson. rewrite exec_fetchBotStatus, Hnet, Hjson. done.
Qed.

(** C1 (as the code behaves): a poll answered 404 with a body that parses,
    here [{"detail":"Not Found"}], replaces the snapshot by that body and
    reports nothing, neither to the console nor to the log. *)
Theorem fetchBotStatus_non_2xx_replaces_snapshot :
  let body := VObj [("detail", VStr "Not Found")] in
  let resp := Response 404 (inr body) in
  let r := exec fetchBotStatus (constant_world resp) 0 initial_ui in
  ok resp = false /\
  botStatus (final r) = body /\
  botStatus (final r) <> botStatus initial_ui /\
  console (trace r) = [] /\
  logs (final r) = [].
Proof. by split_and!. Qed.

(** ** start and stop *)

(** The handler of both [catch] blocks logs and returns. *)
Lemma exec_guarded_body (p : prog unit) (prefix type : string) w n s :
  let r := exec (try_catch p (fun error => addLog (prefix ++ message error) type)) w n s in
  value r = inr tt.
Proof.
  simpl. rewrite exec_try_catch. simpl.
  by destruct (value (exec p w n s)) as [e | []].
Qed.

(** C3: when [api_key] or [secret_key] of the configuration is the empty
    string, [startBot] issues no request, adds exactly one entry to the log,
    of type error, and does not touch [isLoading], so the flag is false
    afterwards whenever it was false before. *)
Theorem startBot_empty_key_logs_one_error (cfg : gmap string jsval) w n s :
  config_get cfg "api_key" = VStr EmptyString \/
  config_get cfg "secret_key" = VStr EmptyString ->
  let r := exec (startBot cfg) w n s in
  exists entry,
    log_type entry = "error" /\
    trace r = [ELogs (push_log (logs s) entry)] /\
    requests (trace r) = [] /\
    logs (final r) = push_log (logs s) entry /\
    isLoading (final r) = isLoading s /\
    (isLoading s = false -> isLoading (final r) = false).
Proof.
  intros Hkey. unfold startBot.
  assert (keys_missing cfg = true) as ->.
  { unfold keys_missing. destruct Hkey as [-> | ->]; simpl; [done |].
    apply orb_true_r. }
  cbv iota. rewrite exec_addLog. simpl.
  eexists (LogEntry _ _ _). by split_and!.
Qed.

(** The states through which a start that was accepted goes. *)
Lemma exec_startBot_accepted (cfg : gmap string jsval) w n s resp result sym :
  keys_missing cfg = false ->
  net w n (start_request cfg) = inr resp ->
  json_body resp = inr result ->
  ok resp = true ->
  config_get cfg "symbol" = VStr sym ->
  let entry := LogEntry (clock w (S n)) ("Бот запущен для пары " ++ sym) "success" in
  let logged := set_logs (push_log (logs s) entry) (set_isLoading true s) in
  let poll := exec fetchBotStatus w (S (S n)) logged in
  exec (startBot cfg) w n s =
    RunResult (inr tt) (ticks poll) (set_isLoading false (final poll))
      ([EIsLoading true; ERequest (start_request cfg); ESettled (inr resp);
        EParsed (inr result); ELogs (push_log (logs s) entry)]
       ++ trace poll ++ [EIsLoading false]).
Proof.
  intros Hkeys Hnet Hjson Hok Hsym entry logged poll.
  subst poll. rewrite exec_fetchBotStatus.
  unfold startBot. rewrite Hkeys. simpl.
  rewrite Hnet. simpl. rewrite Hjson. simpl. rewrite Hok.
  unfold template. rewrite Hsym. simpl.
  destruct (net w (S (S n)) status_request) as [e | presp]; simpl; [done |].
  by destruct (json_body presp).
Qed.

Lemma exec_stopBot_accepted w n s resp result :
  net w n stop_request = inr resp ->
  json_body resp = inr result ->
  ok resp = true ->
  let entry := LogEntry (clock w (S n)) "Бот остановлен" "success" in
  let logged := set_logs (push_log (logs s) entry) (set_isLoading true s) in
  let poll := exec fetchBotStatus w (S (S n)) logged in
  exec stopBot w n s =
    RunResult (inr tt) (ticks poll) (set_isLoading false (final poll))
      ([EIsLoading true; ERequest stop_request; ESettled (inr resp);
        EParsed (inr result); ELogs (push_log (logs s) entry)]
       ++ trace poll ++ [EIsLoading false]).
Proof.
  intros Hnet Hjson Hok entry logged poll.
  subst poll. rewrite exec_fetchBotStatus.
  unfold stopBot. simpl.
  rewrite Hnet. simpl. rewrite Hjson. simpl. rewrite Hok. simpl.
  destruct (net w (S (S n)) status_request) as [e | presp]; simpl; [done |].
  by destruct (json_body presp).
Qed.

(** A start that the backend rejects with a body that parses. *)
Lemma exec_startBot_rejected (cfg : gmap string jsval) w n s resp result detail :
  keys_missing cfg = false ->
  net w n (start_request cfg) = inr resp ->
  json_body resp = inr result ->
  ok resp = false ->
  get_prop result "detail" = inr (VStr detail) ->
  let entry := LogEntry (clock w (S n)) ("Ошибка запуска: " ++ detail) "error" in
  exec (startBot cfg) w n s =
    RunResult (inr tt) (S (S n))
      (set_isLoading false (set_logs (push_log (logs s) entry) (set_isLoading true s)))
      [EIsLoading true; ERequest (start_request cfg); ESettled (inr resp);
       EParsed (inr result); ELogs (push_log (logs s) entry); EIsLoading false].
Proof.
  intros Hkeys Hnet Hjson Hok Hdetail entry.
  unfold startBot. rewrite Hkeys. simpl.
  rewrite Hnet. simpl. rewrite Hjson. simpl. rewrite Hok.
  rewrite Hdetail. done.
Qed.

(** A start whose request fails, or whose response has a body that does not
    parse, ends in the [catch] block. *)
Lemma exec_startBot_caught (cfg : gmap string jsval) w n s e :
  keys_missing cfg = false ->
  net w n (start_request cfg) = inl e \/
  (exists resp, net w n (start_request cfg) = inr resp /\ json_body resp = inl e) ->
  let entry := LogEntry (clock w (S n)) ("Ошибка соединения: " ++ message e) "error" in
  let r := exec (startBot cfg) w n s in
  value r = inr tt /\
  final r = set_isLoading false (set_logs (push_log (logs s) entry) (set_isLoading true s)) /\
  requests (trace r) = [start_request cfg] /\
  log_updates (trace r) = [push_log (logs s) entry].
Proof.
  intros Hkeys Hfail entry.
  unfold startBot. rewrite Hkeys. simpl.
  destruct Hfail as [Hnet | (resp & Hnet & Hjson)]; rewrite Hnet; simpl; [done |].
  rewrite Hjson. done.
Qed.

(** C5: once [startBot] (with both keys present) or [stopBot] has issued
    its request, the function returns normally whatever the network
    answers, the last thing it does is [setIsLoading(false)], and
    [isLoading] is false when it returns. *)
Theorem lifecycle_always_releases_isLoading (cfg : gmap string jsval) w n s :
  keys_missing cfg = false ->
  let r1 := exec (startBot cfg) w n s in
  let r2 := exec stopBot w n s in
  (head (requests (trace r1)) = Some (start_request cfg) /\
   value r1 = inr tt /\
   last (trace r1) = Some (EIsLoading false) /\
   isLoading (final r1) = false) /\
  (head (requests (trace r2)) = Some stop_request /\
   value r2 = inr tt /\
   last (trace r2) = Some (EIsLoading false) /\
   isLoading (final r2) = false).
Proof.
  intros Hkeys r1 r2. split.
  - subst r1. unfold startBot. rewrite Hkeys, exec_bind.
    cbn [call exec handle value ticks final trace].
    rewrite exec_finally_release. cbn [value ticks final trace].
    split_and!.
    + done.
    + apply exec_guarded_body.
    + by rewrite app_assoc, last_snoc.
    + done.
  - subst r2. unfold stopBot. rewrite exec_bind.
    cbn [call exec handle value ticks final trace].
    rewrite exec_finally_release. cbn [value ticks final trace].
    split_and!.
    + done.
    + apply exec_guarded_body.
    + by rewrite app_assoc, last_snoc.
    + done.
Qed.

Lemma log_updates_app (tr1 tr2 : list event) :
  log_updates (tr1 ++ tr2) = (log_updates tr1 ++ log_updates tr2)%list.
Proof. apply omap_app. Qed.

Lemma requests_app (tr1 tr2 : list event) :
  requests (tr1 ++ tr2) = (requests tr1 ++ requests tr2)%list.
Proof. apply omap_app. Qed.

Lemma fetchBotStatus_requests w n s :
  requests (trace (exec fetchBotStatus w n s)) = [status_request].
Proof.
  rewrite exec_fetchBotStatus.
  destruct (net w n status_request) as [e | resp]; simpl; [done |].
  by destruct (json_body resp).
Qed.

(** What an accepted start shows of itself: one log update and two
    requests, the second being the poll. *)
Lemma startBot_accepted_summary (cfg : gmap string jsval) w n s resp result sym :
  keys_missing cfg = false ->
  net w n (start_request cfg) = inr resp ->
  json_body resp = inr result ->
  ok resp = true ->
  config_get cfg "symbol" = VStr sym ->
  let entry := LogEntry (clock w (S n)) ("Бот запущен для пары " ++ sym) "success" in
  let r := exec (startBot cfg) w n s in
  log_updates (trace r) = [push_log (logs s) entry] /\
  logs (final r) = push_log (logs s) entry /\
  requests (trace r) = [start_request cfg; status_request].
Proof.
  intros Hkeys Hnet Hjson Hok Hsym entry r. subst r.
  rewrite (exec_startBot_accepted cfg w n s resp result sym) by done.
  cbn [trace final]. fold entry.
  set (logged := set_logs (push_log (logs s) entry) (set_isLoading true s)).
  destruct (fetchBotStatus_keeps_log_and_flag w (S (S n)) logged)
    as (_ & Hlogs & _ & _ & Hupd).
  rewrite !log_updates_app, !requests_app, Hupd, fetchBotStatus_requests.
  by split_and!.
Qed.

(** C6 (amended): when the start request is answered 2xx with a body that
    parses as JSON, the log gains the entry "Бот запущен для пары <symbol>"
    (the source's wording of "bot started for pair <symbol>") of type
    success, with the symbol of the configuration, and the status poll is
    requested next; when it is answered non-2xx with a body that parses
    and has a [detail] string, the entry is "Ошибка запуска: <detail>"
    ("start failed: <detail>") of type error and no poll is requested. *)
Theorem startBot_logs_outcome (cfg : gmap string jsval) w n s resp result :
  keys_missing cfg = false ->
  net w n (start_request cfg) = inr resp ->
  json_body resp = inr result ->
  let r := exec (startBot cfg) w n s in
  (forall sym, ok resp = true -> config_get cfg "symbol" = VStr sym ->
     let entry := LogEntry (clock w (S n)) ("Бот запущен для пары " ++ sym) "success" in
     logs (final r) = push_log (logs s) entry /\
     log_updates (trace r) = [push_log (logs s) entry] /\
     requests (trace r) = [start_request cfg; status_request]) /\
  (forall detail, ok resp = false -> get_prop result "detail" = inr (VStr detail) ->
     let entry := LogEntry (clock w (S n)) ("Ошибка запуска: " ++ detail) "error" in
     logs (final r) = push_log (logs s) entry /\
     log_updates (trace r) = [push_log (logs s) entry] /\
     requests (trace r) = [start_request cfg]).
Proof.
  intros Hkeys Hnet Hjson r. split.
  - intros sym Hok Hsym entry.
    destruct (startBot_accepted_summary cfg w n s resp result sym) as (? & ? & ?);
      done.
  - intros detail Hok Hdetail entry. subst r.
    by rewrite (exec_startBot_rejected cfg w n s resp result detail).
Qed.

(** C9 (amended): a 2xx response to the start request whose body parses is
    a success whatever the parsed value is: the only entry added is the
    success entry and the poll is requested. *)
Theorem startBot_2xx_parsed_is_success (cfg : gmap string jsval) w n s resp result sym :
  keys_missing cfg = false ->
  config_get cfg "symbol" = VStr sym ->
  net w n (start_request cfg) = inr resp ->
  ok resp = true ->
  json_body resp = inr result ->
  let r := exec (startBot cfg) w n s in
  exists entry,
    log_type entry = "success" /\
    log_updates (trace r) = [push_log (logs s) entry] /\
    logs (final r) = push_log (logs s) entry /\
    requests (trace r) = [start_request cfg; status_request] /\
    value r = inr tt.
Proof.
  intros Hkeys Hsym Hnet Hok Hjson r.
  destruct (startBot_accepted_summary cfg w n s resp result sym) as (Hu & Hl & Hr);
    try done.
  eexists (LogEntry _ _ _). split_and!; [done | exact Hu | exact Hl | exact Hr |].
  subst r. by rewrite (exec_startBot_accepted cfg w n s resp result sym).
Qed.

(** C4 (amended): while [isLoading] is true both buttons are disabled, so a
    click on either runs nothing: no request is issued and the state is
    left as it is. *)
Theorem busy_controls_run_nothing (s : ui) w n :
  isLoading s = true ->
  let r1 := exec (click_start s) w n s in
  let r2 := exec (click_stop s) w n s in
  (requests (trace r1) = [] /\ final r1 = s) /\
  (requests (trace r2) = [] /\ final r2 = s).
Proof.
  intros Hbusy. unfold click_start, click_stop, render, disabled_attr.
  rewrite Hbusy. by destruct (botStatus s).
Qed.

End Lifecycle.

(** ** The status grid *)

Section Display.
Context `{Engine}.

(** A guard on a zero leaves the zero, not the element. *)
Lemma guarded_zero (sign : bool) (label : string) :
  guarded (VNum (S754_zero sign)) label = Bare (VNum (S754_zero sign)).
Proof. reflexivity. Qed.

(** A guard on a non-zero finite number gives the element. *)
Lemma guarded_finite (sign : bool) (m : positive) (e : Z) (label : string) :
  guarded (VNum (S754_finite sign m e)) label =
    StatusItem label (VNum (S754_finite sign m e)).
Proof. reflexivity. Qed.

(** C7 (as the code behaves): with the snapshot
    [{"running":true,"best_bid":0}] the grid has no item for the best bid;
    the guard on [botStatus.best_bid] leaves the bare number 0 in its
    place. *)
Theorem zero_best_bid_is_not_displayed :
  let zero := VNum (S754_zero false) in
  let status := VObj [("running", VBool true); ("best_bid", zero)] in
  exists v,
    render (set_botStatus status initial_ui) = inr v /\
    displays v "Лучшая покупка:" = false /\
    status_grid v !! 2 = Some (Bare zero).
Proof. eexists. by split_and!. Qed.

End Display.

(** ** Any schedule *)

Section Schedules.
Context `{Engine}.

Lemma free_of_weaken (bad1 bad2 : forall X : Type, cmd X -> bool) (p : prog unit) :
  (forall X (c : cmd X), bad1 X c = false -> bad2 X c = false) ->
  free_of bad1 p -> free_of bad2 p.
Proof.
  intros Hsub. induction 1 as [a | e | X c k Hc _ IH]; constructor; auto.
Qed.

Lemma free_of_bind bad (p : prog unit) (f : unit -> prog unit) :
  free_of bad p -> (forall a, free_of bad (f a)) -> free_of bad (bind p f).
Proof.
  intros Hp Hf. induction Hp as [a | e | X c k Hc _ IH]; simpl; [done | |].
  - constructor.
  - by constructor.
Qed.

Lemma free_of_try_catch bad (p : prog unit) (h : error -> prog unit) :
  free_of bad p -> (forall e, free_of bad (h e)) -> free_of bad (try_catch p h).
Proof.
  intros Hp Hh. induction Hp as [a | e | X c k Hc _ IH]; simpl; [| done |].
  - constructor.
  - by constructor.
Qed.

(** The bodies of the component are built from a few shapes; this closes
    the goals that say which commands they are free of. *)
Ltac free_of_body :=
  repeat first
    [ progress simpl
    | progress unfold await, call, eval, addLog, template, get_prop, fetchBotStatus,
        change
    | match goal with
      | |- forall _, _ => intro
      | |- free_of _ (Ret _) => apply free_ret
      | |- free_of _ (Throw _) => apply free_throw
      | |- free_of _ (Vis _ _) => apply free_vis; [reflexivity |]
      | |- free_of _ ?p =>
          match p with
          | context [match ?o with _ => _ end] => destruct o
          end
      end ].

Lemma bystander_fetchBotStatus : bystander fetchBotStatus.
Proof. unfold bystander. free_of_body. Qed.

Lemma bystander_addLog msg type : bystander (addLog msg type).
Proof. unfold bystander. free_of_body. Qed.

Lemma bystander_change e : bystander (change e).
Proof. unfold bystander. free_of_body. Qed.

Lemma bystander_flagless p : bystander p -> free_of (@writes_flag) p.
Proof.
  apply free_of_weaken. intros X c Hc. by apply orb_false_iff in Hc as [? _].
Qed.

(** After [setIsLoading(true)], what is left of [startBot] and of [stopBot]
    is a body that does not write the flag, inside the [finally]. *)
Lemma startBot_shape (cfg : gmap string jsval) :
  keys_missing cfg = false ->
  exists body, free_of (@writes_flag) body /\
    startBot cfg = Vis (SetIsLoading true)
                     (fun _ => finally body (call (SetIsLoading false))).
Proof.
  intros Hkeys. unfold startBot. rewrite Hkeys. eexists. split; [| reflexivity].
  free_of_body.
Qed.

Lemma stopBot_shape :
  exists body, free_of (@writes_flag) body /\
    stopBot = Vis (SetIsLoading true)
                (fun _ => finally body (call (SetIsLoading false))).
Proof.
  unfold stopBot. eexists. split; [| reflexivity].
  free_of_body.
Qed.


Lemma free_of_inv bad (p : prog unit) :
  free_of bad p ->
  match p with
  | Vis c k => bad _ c = false /\ forall x, free_of bad (k x)
  | _ => True
  end.
Proof. by destruct 1. Qed.

(** A command that does not write the flag leaves it, and a command that
    does not suspend shows no request. *)
Lemma handle_keeps_flag {X : Type} (c : cmd X) w n s :
  writes_flag c = false -> isLoading (handle c w n s).1.2 = isLoading s.
Proof. by destruct c. Qed.

Lemma handle_no_request {X : Type} (c : cmd X) w n s :
  suspends c = false -> requests (handle c w n s).2 = [].
Proof. by destruct c. Qed.

(** A bystander runs to its next [await] without touching the flag and
    without sending a command, and what waits is a bystander again. *)
Lemma advance_bystander (p : prog unit) w n s :
  bystander p ->
  let r := advance p w n s in
  isLoading (after r) = isLoading s /\
  Forall (fun rq => is_command rq = false) (requests (shown r)) /\
  match reached r with
  | Parked q => bystander q
  | Over _ => True
  end.
Proof.
  intros Hp. revert n s.
  induction Hp as [a | e | X c k Hc Hk IH]; intros n s; simpl; [done | done |].
  apply orb_false_iff in Hc as [Hflag Hsend].
  destruct (suspends c) eqn:Hsusp; simpl.
  - split_and!; [done | |].
    + destruct c; simpl; try done. by repeat constructor.
    + apply free_vis; [| done]. by rewrite Hflag, Hsend.
  - pose proof (handle_keeps_flag c w n s Hflag) as Hkeep.
    pose proof (handle_no_request c w n s Hsusp) as Hreq.
    destruct (handle c w n s) as [[[x n1] s1] evs]. simpl in *.
    destruct (IH x n1 s1) as (Hflag' & Hreqs & Hstage).
    split_and!; [congruence | | done].
    by rewrite requests_app, Hreq.
Qed.

(** A start or stop past [setIsLoading(true)] runs to its next [await]
    without touching the flag, or to its end, where the flag is false. *)
Lemma advance_releasing (body : prog unit) w n s :
  free_of (@writes_flag) body ->
  let r := advance (finally body (call (SetIsLoading false))) w n s in
  match reached r with
  | Parked q => releasing q /\ isLoading (after r) = isLoading s
  | Over _ => isLoading (after r) = false
  end.
Proof.
  intros Hbody. revert n s.
  induction Hbody as [a | e | X c k Hc Hk IH]; intros n s; simpl; [done | done |].
  destruct (suspends c) eqn:Hsusp; simpl.
  - split; [| done]. exists (Vis c k). split; [by constructor | done].
  - pose proof (handle_keeps_flag c w n s Hc) as Hkeep.
    destruct (handle c w n s) as [[[x n1] s1] evs]. simpl in *.
    specialize (IH x n1 s1). simpl in IH.
    destruct (reached _); [by rewrite <- Hkeep |done].
Qed.

Lemma settle_bystander (p q : prog unit) w n evs :
  bystander p -> settle p w n = Some (q, evs) -> bystander q /\ requests evs = [].
Proof.
  intros Hp Hsettle. apply free_of_inv in Hp.
  destruct p as [| | X c k]; [done | done |].
  destruct Hp as [_ Hk]. destruct c; simpl in Hsettle; try done;
    injection Hsettle as <- <-; (split; [apply Hk | done]).
Qed.

Lemma settle_releasing (p q : prog unit) w n evs :
  releasing p -> settle p w n = Some (q, evs) -> releasing q /\ requests evs = [].
Proof.
  intros (body & Hbody & ->) Hsettle. apply free_of_inv in Hbody.
  destruct body as [| | X c k]; [done | done |].
  destruct Hbody as [_ Hk]. destruct c; simpl in Hsettle; try done;
    injection Hsettle as <- <-; (split; [| done]); eexists; (split; [apply Hk | done]).
Qed.

Lemma bystander_awaits_nothing (p : prog unit) :
  bystander p -> awaits_command p = false.
Proof.
  intros Hp. apply free_of_inv in Hp. destruct p as [| | X c k]; [done | done |].
  destruct Hp as [Hc _]. apply orb_false_iff in Hc as [_ Hsend]. by destruct c.
Qed.

Lemma holders_app (tags1 tags2 : list bool) :
  holders (tags1 ++ tags2) = holders tags1 + holders tags2.
Proof. induction tags1 as [| t tags1 IH]; simpl; [done | rewrite IH; lia]. Qed.

Lemma holders_delete (tags : list bool) (i : nat) (t : bool) :
  tags !! i = Some t ->
  holders tags = (if t then 1 else 0) + holders (delete i tags).
Proof.
  revert i. induction tags as [| t' tags IH]; intros [| i] Hi; simplify_eq/=;
    [done |]. rewrite (IH i Hi). lia.
Qed.

Lemma holders_unique (tags : list bool) (i j : nat) :
  holders tags <= 1 -> tags !! i = Some true -> tags !! j = Some true -> i = j.
Proof.
  revert i j. induction tags as [| t tags IH]; intros i j Hle Hi Hj; [done |].
  destruct i as [| i], j as [| j]; simplify_eq/=; [done | | |].
  - pose proof (holders_delete tags j true Hj) as Hdel. simpl in Hdel. lia.
  - pose proof (holders_delete tags i true Hi) as Hdel. simpl in Hdel. lia.
  - f_equal. apply IH; [| done | done]. destruct t; lia.
Qed.

(** The start button is enabled only when the flag is false. *)
Lemma enabled_means_idle (s : ui) (v : view) :
  render s = inr v ->
  (start_disabled v = false -> isLoading s = false) /\
  (stop_disabled v = false -> isLoading s = false).
Proof.
  unfold render, disabled_attr. destruct (isLoading s); [| done].
  simpl. destruct (botStatus s); simpl; intros [= <-]; done.
Qed.

(** A handler that is a bystander keeps the gate. *)
Lemma spawn_bystander (p : prog unit) w (pn : panel) :
  bystander p -> gate pn -> gate (spawn p w pn).
Proof.
  intros Hp (tags & Htags & Hcount). unfold gate, spawn. simpl.
  destruct (advance_bystander p w (S (now pn)) (cells pn) Hp) as (Hflag & _ & Hstage).
  rewrite Hflag. destruct (reached _) as [q | o].
  - exists (tags ++ [false])%list. split.
    + apply Forall2_app; [done |]. by repeat constructor.
    + rewrite holders_app. simpl. lia.
  - by exists tags.
Qed.

(** A start or stop called while the flag is false keeps the gate. *)
Lemma spawn_command (body : prog unit) w (pn : panel) :
  free_of (@writes_flag) body ->
  isLoading (cells pn) = false ->
  gate pn ->
  gate (spawn (Vis (SetIsLoading true)
                 (fun _ => finally body (call (SetIsLoading false)))) w pn).
Proof.
  intros Hbody Hidle (tags & Htags & Hcount). rewrite Hidle in Hcount.
  unfold gate, spawn. simpl.
  pose proof (advance_releasing body w (S (now pn))
                (set_isLoading true (cells pn)) Hbody) as Hadv.
  simpl in Hadv. destruct (reached _) as [q | o].
  - destruct Hadv as [Hq ->]. exists (tags ++ [true])%list. split.
    + apply Forall2_app; [done |]. by repeat constructor.
    + rewrite holders_app. simpl. lia.
  - rewrite Hadv. by exists tags.
Qed.

Lemma react_keeps_gate w (a : action) (pn : panel) :
  gate pn -> gate (react w a pn).
Proof.
  intros Hgate. destruct a as [| | | e | i]; simpl.
  - apply spawn_bystander; [apply bystander_fetchBotStatus | done].
  - unfold click_start.
    destruct (render (cells pn)) as [err | v] eqn:Hrender;
      [apply spawn_bystander; [constructor | done] |].
    destruct (start_disabled v) eqn:Hdis;
      [apply spawn_bystander; [constructor | done] |].
    destruct (keys_missing (config (cells pn))) eqn:Hkeys.
    + unfold startBot. rewrite Hkeys.
      apply spawn_bystander; [apply bystander_addLog | done].
    + destruct (startBot_shape (config (cells pn)) Hkeys) as (body & Hbody & ->).
      apply spawn_command; [done | | done].
      destruct (enabled_means_idle _ _ Hrender) as [Hidle _]. by apply Hidle.
  - unfold click_stop.
    destruct (render (cells pn)) as [err | v] eqn:Hrender;
      [apply spawn_bystander; [constructor | done] |].
    destruct (stop_disabled v) eqn:Hdis;
      [apply spawn_bystander; [constructor | done] |].
    destruct stopBot_shape as (body & Hbody & ->).
    apply spawn_command; [done | | done].
    destruct (enabled_means_idle _ _ Hrender) as [_ Hidle]. by apply Hidle.
  - apply spawn_bystander; [apply bystander_change | done].
  - destruct (pending pn !! i) as [p |] eqn:Hp; [| done].
    destruct (settle p w (S (now pn))) as [[q evs] |] eqn:Hsettle; [| done].
    destruct Hgate as (tags & Htags & Hcount).
    destruct (Forall2_lookup_r _ _ _ _ _ Htags Hp) as (t & Ht & Htagged).
    unfold gate. simpl. destruct t; simpl in Htagged.
    + destruct (settle_releasing _ _ _ _ _ Htagged Hsettle) as [(body & Hbody & ->) _].
      pose proof (advance_releasing body w (S (S (now pn))) (cells pn) Hbody) as Hadv.
      simpl in Hadv. destruct (reached _) as [q' | o].
      * destruct Hadv as [Hq' ->]. exists tags. split; [| done].
        rewrite <- (list_insert_id tags i true Ht). by apply Forall2_insert.
      * rewrite Hadv. exists (delete i tags). split; [by apply Forall2_delete |].
        pose proof (holders_delete tags i true Ht) as Hdel. simpl in Hdel. destruct (isLoading (cells pn)); lia.
    + destruct (settle_bystander _ _ _ _ _ Htagged Hsettle) as [Hq _].
      destruct (advance_bystander q w (S (S (now pn))) (cells pn) Hq)
        as (Hflag & _ & Hstage).
      rewrite Hflag. destruct (reached _) as [q' | o].
      * exists tags. split; [| done].
        rewrite <- (list_insert_id tags i false Ht). by apply Forall2_insert.
      * exists (delete i tags). split; [by apply Forall2_delete |].
        pose proof (holders_delete tags i false Ht) as Hdel. simpl in Hdel. lia.
Qed.

(** Whatever the timer, the operator and the network do, in whatever
    order, the gate holds. *)
Lemma gate_always w (acts : list action) :
  gate (react_all w acts initial_panel).
Proof.
  unfold react_all. rewrite <- fold_left_rev_right.
  induction (rev acts) as [| a racts IH]; simpl.
  - by exists [].
  - by apply react_keeps_gate.
Qed.

(** What waits in the panel is stopped at an [await], and can be settled. *)
Lemma advance_parks_waiting (p q : prog unit) w n s :
  reached (advance p w n s) = Parked q -> waiting q = true.
Proof.
  revert n s. induction p as [a | e | X c k IH]; intros n s; simpl; [done | done |].
  destruct (suspends c) eqn:Hsusp; simpl; [by intros [= <-] |].
  destruct (handle c w n s) as [[[x n1] s1] evs]. simpl. apply IH.
Qed.

Lemma waiting_settles (p : prog unit) w n :
  waiting p = true -> is_Some (settle p w n).
Proof. destruct p as [| | X c k]; [done | done |]. by destruct c. Qed.

Lemma pending_waiting w (acts : list action) :
  Forall (fun p => waiting p = true) (pending (react_all w acts initial_panel)).
Proof.
  unfold react_all. rewrite <- fold_left_rev_right.
  induction (rev acts) as [| a racts IH]; simpl; [constructor |].
  set (pn := fold_right _ _ _) in *.
  assert (Hspawn : forall p, Forall (fun p => waiting p = true) (pending (spawn p w pn))).
  { intros p. unfold spawn. simpl.
    destruct (reached _) as [q | o] eqn:Hq; [| done].
    apply Forall_app. split; [done |]. repeat constructor.
    by eapply advance_parks_waiting. }
  destruct a as [| | | e | i]; [apply Hspawn .. |]. cbn [react].
  destruct (pending pn !! i) as [p |]; [| done].
  destruct (settle p w (S (now pn))) as [[q evs] |]; [| done]. simpl.
  destruct (reached _) as [q' | o] eqn:Hq.
  - apply Forall_insert; [done |]. by eapply advance_parks_waiting.
  - by apply Forall_delete.
Qed.

(** At no moment do two functions wait for the answer to a start or stop
    request; none does while [isLoading] is false; and while it is true,
    some start or stop is waiting that ends by setting it to false. *)
Theorem one_command_at_a_time w (acts : list action) :
  let pn := react_all w acts initial_panel in
  (forall i j p q,
     pending pn !! i = Some p -> pending pn !! j = Some q ->
     awaits_command p = true -> awaits_command q = true -> i = j) /\
  (isLoading (cells pn) = false ->
     Forall (fun p => awaits_command p = false) (pending pn)) /\
  (isLoading (cells pn) = true ->
     exists i p, pending pn !! i = Some p /\ releasing p).
Proof.
  intros pn. destruct (gate_always w acts) as (tags & Htags & Hcount). fold pn in Htags, Hcount.
  assert (Hcmd : forall i p, pending pn !! i = Some p -> awaits_command p = true ->
                 tags !! i = Some true).
  { intros i p Hp Hawait.
    destruct (Forall2_lookup_r _ _ _ _ _ Htags Hp) as ([|] & Ht & Htagged); [done |].
    by rewrite (bystander_awaits_nothing p Htagged) in Hawait. }
  split_and!.
  - intros i j p q Hp Hq Hap Haq.
    apply (holders_unique tags); [| by eapply Hcmd | by eapply Hcmd].
    rewrite Hcount. destruct (isLoading _); lia.
  - intros Hidle. rewrite Hidle in Hcount. apply Forall_lookup. intros i p Hp.
    destruct (awaits_command p) eqn:Hawait; [| done].
    pose proof (holders_delete tags i true (Hcmd i p Hp Hawait)) as Hdel. simpl in Hdel. lia.
  - intros Hbusy. rewrite Hbusy in Hcount.
    assert (exists i, tags !! i = Some true) as [i Hi].
    { clear Htags Hcmd. induction tags as [| [|] tags IH]; simpl in Hcount; [lia | |].
      - by exists 0.
      - destruct (IH Hcount) as [i Hi]. by exists (S i). }
    destruct (Forall2_lookup_l _ _ _ _ _ Htags Hi) as (p & Hp & Htagged).
    by exists i, p.
Qed.

End Schedules.

(** The second click of [double_click] falls on a disabled button: one
    start request is sent, then the poll, and the panel ends idle with the
    snapshot of the poll. *)
Example double_click_sends_one_start :
  let pn := @react_all sample_engine accepting_world double_click initial_panel in
  requests (history pn) = [start_request sample_config; status_request] /\
  map log_message (logs (cells pn)) = ["Бот запущен для пары ETHUSDT"] /\
  botStatus (cells pn) = running_status /\
  isLoading (cells pn) = false /\
  length (pending pn) = 0.
Proof. vm_compute. by split_and!. Qed.

(** ** The release comes after the refresh *)

Section Release.
Context `{Engine}.








End Release.

(** ** The properties at the sample data *)

Lemma startBot_empty_key_logs_one_error_witness :
  config_get initial_config "api_key" = VStr EmptyString /\
  let r := exec (@startBot sample_engine initial_config) accepting_world 0 initial_ui in
  exists entry,
    log_type entry = "error" /\
    trace r = [ELogs (push_log [] entry)] /\
    requests (trace r) = [] /\
    logs (final r) = push_log [] entry /\
    isLoading (final r) = false /\
    (false = false -> isLoading (final r) = false).
Proof.
  split; [reflexivity |].
  apply (@startBot_empty_key_logs_one_error sample_engine
           initial_config accepting_world 0 initial_ui).
  left. reflexivity.
Defined.

Lemma lifecycle_always_releases_isLoading_witness :
  keys_missing sample_config = false /\
  isLoading (final (exec (@startBot sample_engine sample_config)
                      unreachable_world 0 initial_ui)) = false /\
  isLoading (final (exec (@stopBot sample_engine) unreachable_world 0 initial_ui)) = false.
Proof.
  split; [reflexivity |].
  destruct (@lifecycle_always_releases_isLoading sample_engine sample_config
              unreachable_world 0 initial_ui eq_refl)
    as [(_ & _ & _ & Hstart) (_ & _ & _ & Hstop)].
  exact (conj Hstart Hstop).
Defined.

(** Scenario A of the specification: keys k1 and s1, pair ETHUSDT, the
    backend answers 200. Scenario C: it answers 400 with the detail
    "invalid symbol". *)
Lemma startBot_logs_outcome_witness :
  (let r := exec (@startBot sample_engine sample_config) accepting_world 0 initial_ui in
   logs (final r) = [LogEntry "12:00:00" "Бот запущен для пары ETHUSDT" "success"] /\
   requests (trace r) = [start_request sample_config; status_request]) /\
  (let rejection := Response 400 (inr (VObj [("detail", VStr "invalid symbol")])) in
   let r := exec (@startBot sample_engine sample_config)
              (constant_world rejection) 0 initial_ui in
   logs (final r) = [LogEntry "12:00:00" "Ошибка запуска: invalid symbol" "error"] /\
   requests (trace r) = [start_request sample_config]).
Proof.
  split.
  - destruct (@startBot_logs_outcome sample_engine sample_config accepting_world 0
                initial_ui _ _ eq_refl eq_refl eq_refl) as [Hok _].
    destruct (Hok "ETHUSDT" eq_refl eq_refl) as (Hlogs & _ & Hreq).
    exact (conj Hlogs Hreq).
  - destruct (@startBot_logs_outcome sample_engine sample_config
                (constant_world (Response 400 (inr (VObj [("detail", VStr "invalid symbol")]))))
                0 initial_ui _ _ eq_refl eq_refl eq_refl) as [_ Hrej].
    destruct (Hrej "invalid symbol" eq_refl eq_refl) as (Hlogs & _ & Hreq).
    exact (conj Hlogs Hreq).
Defined.

(** C6 (as stated) fails: the start request receives a success response,
    201 with an empty body; [response.json()] rejects before [response.ok]
    is read, so the log gains no success entry but a connection error, and
    no status poll is requested. *)
Lemma startBot_success_without_json_counterexample :
  let resp := Response 201 (inl (Error "SyntaxError" "Unexpected end of JSON input")) in
  let r := exec (@startBot sample_engine sample_config) (constant_world resp) 0 initial_ui in
  ok resp = true /\
  map log_type (logs (final r)) = ["error"] /\
  map log_message (logs (final r)) <> ["Бот запущен для пары ETHUSDT"] /\
  requests (trace r) = [start_request sample_config].
Proof. split_and!; [reflexivity | reflexivity | discriminate | reflexivity]. Qed.

(** C9 (as stated) fails: the start request is answered 200 with a body
    that is not JSON; the log gains an error entry, no success entry, and
    no poll is requested. *)
Lemma startBot_2xx_unparsed_counterexample :
  let resp := Response 200 (inl (Error "SyntaxError" "Unexpected end of JSON input")) in
  let r := exec (@startBot sample_engine sample_config) (constant_world resp) 0 initial_ui in
  ok resp = true /\
  logs (final r) =
    [LogEntry "12:00:00" "Ошибка соединения: Unexpected end of JSON input" "error"] /\
  requests (trace r) = [start_request sample_config].
Proof. by split_and!. Qed.

Lemma startBot_2xx_parsed_is_success_witness :
  let r := exec (@startBot sample_engine sample_config)
             (constant_world (Response 204 (inr VNull))) 0 initial_ui in
  exists entry,
    log_type entry = "success" /\
    log_updates (trace r) = [push_log [] entry] /\
    logs (final r) = push_log [] entry /\
    requests (trace r) = [start_request sample_config; status_request] /\
    value r = inr tt.
Proof.
  apply (@startBot_2xx_parsed_is_success sample_engine sample_config
           (constant_world (Response 204 (inr VNull))) 0 initial_ui
           (Response 204 (inr VNull)) VNull "ETHUSDT");
    reflexivity.
Defined.


(** C4 (as stated) fails: [startBot] called while [isLoading] is true, with
    both keys present, issues its request all the same. *)
Lemma startBot_while_loading_counterexample :
  let busy := set_isLoading true initial_ui in
  let r := exec (@startBot sample_engine sample_config) accepting_world 0 busy in
  isLoading busy = true /\
  requests (trace r) = [start_request sample_config; status_request].
Proof. by split_and!. Qed.

Lemma busy_controls_run_nothing_witness :
  let busy := set_isLoading true (set_config sample_config initial_ui) in
  isLoading busy = true /\
  requests (trace (exec (@click_start sample_engine busy) accepting_world 0 busy)) = [] /\
  requests (trace (exec (@click_stop sample_engine busy) accepting_world 0 busy)) = [].
Proof.
  split; [reflexivity |].
  destruct (@busy_controls_run_nothing sample_engine
              (set_isLoading true (set_config sample_config initial_ui))
              accepting_world 0 eq_refl) as [[Hstart _] [Hstop _]].
  exact (conj Hstart Hstop).
Defined.

(** * Further properties *)

(** ** Outcomes of start and stop *)

Section Outcomes.
Context `{Engine}.


(** When the stop request is answered 2xx with a body that parses, the log
    gains "Бот остановлен" of type success and the poll is requested; when
    it is answered non-2xx with a [detail] string, it gains
    "Ошибка остановки: <detail>" of type error and nothing else is
    requested. *)
Theorem stopBot_logs_outcome w n s resp result :
  net w n stop_request = inr resp ->
  json_body resp = inr result ->
  let r := exec stopBot w n s in
  (ok resp = true ->
     let entry := LogEntry (clock w (S n)) "Бот остановлен" "success" in
     logs (final r) = push_log (logs s) entry /\
     log_updates (trace r) = [push_log (logs s) entry] /\
     requests (trace r) = [stop_request; status_request]) /\
  (forall detail, ok resp = false -> get_prop result "detail" = inr (VStr detail) ->
     let entry := LogEntry (clock w (S n)) ("Ошибка остановки: " ++ detail) "error" in
     logs (final r) = push_log (logs s) entry /\
     log_updates (trace r) = [push_log (logs s) entry] /\
     requests (trace r) = [stop_request]).
Proof.
  intros Hnet Hjson r. split.
  - intros Hok entry. subst r.
    rewrite (exec_stopBot_accepted w n s resp result) by done.
    cbn [trace final]. fold entry.
    set (logged := set_logs (push_log (logs s) entry) (set_isLoading true s)).
    destruct (fetchBotStatus_keeps_log_and_flag w (S (S n)) logged)
      as (_ & Hlogs & _ & _ & Hupd).
    rewrite !log_updates_app, !requests_app, Hupd, fetchBotStatus_requests.
    by split_and!.
  - intros detail Hok Hdetail entry. subst r entry. unfold stopBot. simpl.
    rewrite Hnet. simpl. rewrite Hjson. simpl. rewrite Hok, Hdetail. done.
Qed.

Lemma exec_stopBot_caught w n s e :
  failed w n stop_request e ->
  let entry := LogEntry (clock w (S n)) ("Ошибка соединения: " ++ message e) "error" in
  exec stopBot w n s =
    RunResult (inr tt) (S (S n))
      (set_isLoading false (set_logs (push_log (logs s) entry) (set_isLoading true s)))
      (EIsLoading true :: ERequest stop_request ::
       match net w n stop_request with
       | inl _ => [ESettled (inl e)]
       | inr resp => [ESettled (inr resp); EParsed (inl e)]
       end ++ [ELogs (push_log (logs s) entry); EIsLoading false]).
Proof.
  intros Hfail entry. unfold stopBot. simpl.
  destruct Hfail as [Hnet | (resp & Hnet & Hjson)]; rewrite Hnet; simpl; [done |].
  rewrite Hjson. done.
Qed.

(** A start (with both keys) or a stop whose request is rejected by the
    network, or answered with a body that does not parse, adds the one
    entry "Ошибка соединения: <message of the error>" of type error; it
    has sent its one request and no poll, the snapshot and the
    configuration are as before and [isLoading] is false again. *)
Theorem lifecycle_connection_error (cfg : gmap string jsval) w n s e1 e2 :
  keys_missing cfg = false ->
  failed w n (start_request cfg) e1 ->
  failed w n stop_request e2 ->
  let entry e := LogEntry (clock w (S n)) ("Ошибка соединения: " ++ message e) "error" in
  let r1 := exec (startBot cfg) w n s in
  let r2 := exec stopBot w n s in
  (value r1 = inr tt /\
   final r1 = set_logs (push_log (logs s) (entry e1)) (set_isLoading false s) /\
   requests (trace r1) = [start_request cfg] /\
   log_updates (trace r1) = [push_log (logs s) (entry e1)]) /\
  (value r2 = inr tt /\
   final r2 = set_logs (push_log (logs s) (entry e2)) (set_isLoading false s) /\
   requests (trace r2) = [stop_request] /\
   log_updates (trace r2) = [push_log (logs s) (entry e2)]).
Proof.
  intros Hkeys Hfail1 Hfail2 entry r1 r2. split.
  - destruct (exec_startBot_caught cfg w n s e1 Hkeys Hfail1) as (Hv & Hf & Hr & Hl).
    fold r1 in Hv, Hf, Hr, Hl. by rewrite Hf.
  - subst r2. rewrite (exec_stopBot_caught w n s e2 Hfail2). simpl.
    split_and!; [done | done | |];
      destruct Hfail2 as [Hnet | (resp & Hnet & _)]; by rewrite Hnet.
Qed.

(** A non-2xx answer to the start request whose body parses but carries no
    [detail]: for the body [null] the read of [result.detail] throws, and
    the entry is the connection error with the TypeError's message; for a
    body without a [detail] property the entry is
    "Ошибка запуска: undefined". *)
Theorem startBot_rejection_without_detail (cfg : gmap string jsval) w n s resp result :
  keys_missing cfg = false ->
  net w n (start_request cfg) = inr resp ->
  json_body resp = inr result ->
  ok resp = false ->
  let r := exec (startBot cfg) w n s in
  let logged msg := push_log (logs s) (LogEntry (clock w (S n)) msg "error") in
  requests (trace r) = [start_request cfg] /\
  (result = VNull ->
     logs (final r) = logged ("Ошибка соединения: " ++ nullReadMessage "detail")) /\
  (get_prop result "detail" = inr VUndefined ->
     logs (final r) = logged "Ошибка запуска: undefined").
Proof.
  intros Hkeys Hnet Hjson Hok r logged. subst r. unfold startBot.
  rewrite Hkeys. simpl. rewrite Hnet. simpl. rewrite Hjson. simpl. rewrite Hok.
  split_and!.
  - destruct (get_prop result "detail") as [e | detail]; simpl; [done |].
    by destruct (template _ detail).
  - by intros ->.
  - by intros ->.
Qed.


(** With strings in both key fields, [startBot] sends a request exactly
    when neither is empty. *)
Theorem startBot_sends_iff_keys_present (cfg : gmap string jsval) w n s k1 k2 :
  config_get cfg "api_key" = VStr k1 ->
  config_get cfg "secret_key" = VStr k2 ->
  requests (trace (exec (startBot cfg) w n s)) <> [] <->
  k1 <> EmptyString /\ k2 <> EmptyString.
Proof.
  intros Hk1 Hk2. unfold startBot, keys_missing. rewrite Hk1, Hk2.
  destruct k1 as [| a1 k1], k2 as [| a2 k2]; simpl;
    (split; [done | intros [? ?]; done]).
Qed.

End Outcomes.

(** ** The poll and the log, in general *)

Section PollAndLog.
Context `{Engine}.

(** A poll sends the one GET of the status, returns normally and writes
    neither the log, nor the flag, nor the configuration. When a response
    comes whose body parses, the state afterwards is the old one with the
    snapshot replaced by that body, whole, and nothing is reported; when
    the fetch is rejected or the body does not parse, the state is the old
    one and the error is written once to the console. *)
Theorem poll_changes_only_the_snapshot w n s :
  let r := exec fetchBotStatus w n s in
  value r = inr tt /\
  requests (trace r) = [status_request] /\
  log_updates (trace r) = [] /\
  match net w n status_request with
  | inr resp =>
      match json_body resp with
      | inr v => final r = set_botStatus v s /\ console (trace r) = []
      | inl e => final r = s /\ console (trace r) = [(poll_label, e)]
      end
  | inl e => final r = s /\ console (trace r) = [(poll_label, e)]
  end.
Proof.
  rewrite exec_fetchBotStatus.
  destruct (net w n status_request) as [e | resp]; simpl; [done |].
  by destruct (json_body resp) as [e | v].
Qed.

Lemma push_log_length prev entry :
  length (push_log prev entry) = min 100 (length prev + 1).
Proof.
  rewrite push_log_slice, slice_last_length, length_app. simpl. lia.
Qed.

(** Whatever number of [addLog] calls is made on a log of at most 100
    entries, the log afterwards is the last 100 of the old entries followed
    by the new ones: nothing is reordered, and only the oldest are lost. *)
Theorem addLog_keeps_last_100 (calls : list (string * string)) w n s :
  length (logs s) <= 100 ->
  let r := exec (in_sequence (map (fun c => addLog c.1 c.2) calls)) w n s in
  logs (final r) = slice_last 100 (logs s ++ stamped w n calls) /\
  length (logs (final r)) = min 100 (length (logs s) + length calls).
Proof.
  intros Hlen r.
  destruct (exec_addLog_sequence calls w n s) as (_ & _ & Hlogs). fold r in Hlogs.
  rewrite Hlogs, push_all_slice by done. split; [done |].
  rewrite slice_last_length, length_app, stamped_length. done.
Qed.

(** Two changes of the same field: the second wins. Changes of different
    fields: their order does not matter. *)
Theorem handleInputChange_composes (e1 e2 : change_event) (c : gmap string jsval) :
  (ev_name e1 = ev_name e2 ->
     handleInputChange e2 (handleInputChange e1 c) = handleInputChange e2 c) /\
  (ev_name e1 <> ev_name e2 ->
     handleInputChange e2 (handleInputChange e1 c) =
     handleInputChange e1 (handleInputChange e2 c)).
Proof.
  unfold handleInputChange. split.
  - intros ->. apply insert_insert_eq.
  - intros Hne. by apply insert_insert_ne.
Qed.

End PollAndLog.

(** ** Invariants of the panel *)

Section PanelInvariants.
Context `{Engine}.

Lemma every_inv P (p : prog unit) :
  every P p ->
  match p with
  | Vis c k => P _ c /\ forall x, every P (k x)
  | _ => True
  end.
Proof. by destruct 1. Qed.

(** If the commands of a function keep a property of the state, running the
    function to its next [await] keeps it, and what waits has the same
    kind of commands. *)
Lemma advance_every P (I : ui -> Prop) (p : prog unit) w n s :
  (forall X (c : cmd X) w n s, P X c -> I s -> I (handle c w n s).1.2) ->
  every P p -> I s ->
  let r := advance p w n s in
  I (after r) /\
  match reached r with
  | Parked q => every P q
  | Over _ => True
  end.
Proof.
  intros Hkeep Hp. revert n s.
  induction Hp as [a | e | X c k Hc Hk IH]; intros n s Hs; simpl; [done | done |].
  destruct (suspends c); simpl; [split; [done | by constructor] |].
  specialize (Hkeep X c w n s Hc Hs).
  destruct (handle c w n s) as [[[x n1] s1] evs]. simpl in *. by apply IH.
Qed.

Lemma settle_every P (p q : prog unit) w n evs :
  every P p -> settle p w n = Some (q, evs) -> every P q.
Proof.
  intros Hp Hsettle. apply every_inv in Hp.
  destruct p as [| | X c k]; [done | done |].
  destruct Hp as [_ Hk]. destruct c; simpl in Hsettle; try done;
    injection Hsettle as <- <-; apply Hk.
Qed.

Lemma react_is_spawn w (a : action) (pn : panel) :
  (forall i, a <> Settle i) -> react w a pn = spawn (handler_of a (cells pn)) w pn.
Proof. intros Ha. destruct a; try done. by destruct (Ha i). Qed.

(** One action keeps such a property, when the function it calls has that
    kind of commands. *)
Lemma react_every P (I : ui -> Prop) w (a : action) (pn : panel) :
  (forall X (c : cmd X) w n s, P X c -> I s -> I (handle c w n s).1.2) ->
  every P (handler_of a (cells pn)) ->
  I (cells pn) -> Forall (every P) (pending pn) ->
  I (cells (react w a pn)) /\ Forall (every P) (pending (react w a pn)).
Proof.
  intros Hkeep Hhandler Hcells Hpending.
  assert (Hspawn : forall p, every P p ->
            I (cells (spawn p w pn)) /\ Forall (every P) (pending (spawn p w pn))).
  { intros p Hp. unfold spawn. simpl.
    destruct (advance_every P I p w (S (now pn)) (cells pn) Hkeep Hp Hcells)
      as [Hafter Hstage].
    split; [done |]. destruct (reached _); [| done].
    apply Forall_app. split; [done |]. by repeat constructor. }
  destruct a as [| | | e | i]; [by apply Hspawn .. |]. cbn [react].
  destruct (pending pn !! i) as [p |] eqn:Hp; [| done].
  destruct (settle p w (S (now pn))) as [[q evs] |] eqn:Hsettle; [| done]. simpl.
  assert (Hq : every P q).
  { eapply settle_every; [| done]. by eapply Forall_lookup_1. }
  destruct (advance_every P I q w (S (S (now pn))) (cells pn) Hkeep Hq Hcells)
    as [Hafter Hstage].
  split; [done |]. destruct (reached _).
  - by apply Forall_insert.
  - by apply Forall_delete.
Qed.

(** The functions of the component, command by command. *)
Ltac every_body :=
  repeat first
    [ progress simpl
    | progress unfold await, call, eval, addLog, template, get_prop, fetchBotStatus,
        change, startBot, stopBot
    | match goal with
      | |- forall _, _ => intro
      | |- every _ (Ret _) => apply every_ret
      | |- every _ (Throw _) => apply every_throw
      | |- every _ (Vis _ _) => apply every_vis
      | |- length (push_log _ _) <= 100 => rewrite push_log_length; lia
      | |- True => exact I
      | |- every _ ?p =>
          match p with
          | context [match ?o with _ => _ end] => destruct o
          end
      end ].

Lemma handlers_keep_log_within_capacity (a : action) (s : ui) :
  every log_within_capacity (handler_of a s).
Proof.
  destruct a; simpl; unfold click_start, click_stop; every_body.
Qed.

Lemma handlers_do_not_set_config (a : action) (s : ui) :
  (forall e, a <> Change e) -> every not_setConfig (handler_of a s).
Proof.
  intros Ha. destruct a as [| | | e | i]; simpl; unfold click_start, click_stop;
    try every_body. by destruct (Ha e).
Qed.

(** Whatever the timer, the operator and the network do, in whatever
    order, the log never holds more than 100 entries. *)
Theorem log_never_exceeds_capacity w (acts : list action) :
  length (logs (cells (react_all w acts initial_panel))) <= 100.
Proof.
  assert (Hinv : forall pn,
            length (logs (cells pn)) <= 100 ->
            Forall (every log_within_capacity) (pending pn) ->
            length (logs (cells (react_all w acts pn))) <= 100).
  { unfold react_all. induction acts as [| a acts IH]; intros pn Hlen Hpending; [done |].
    simpl.
    destruct (react_every log_within_capacity (fun s => length (logs s) <= 100) w a pn)
      as [Hlen' Hpending']; [| apply handlers_keep_log_within_capacity | done | done |].
    - intros X c w' n s Hc Hs. destruct c; simpl in *; auto.
    - by apply IH. }
  apply Hinv; simpl; [lia | constructor].
Qed.

(** Whatever happens, in whatever order, the configuration is the initial
    one with the operator's edits applied in order: no click, poll or
    answer of the network changes it. *)
Theorem config_follows_edits w (acts : list action) :
  config (cells (react_all w acts initial_panel)) =
    fold_left (fun c e => handleInputChange e c) (edits acts) initial_config.
Proof.
  assert (Hinv : forall pn,
            Forall (every not_setConfig) (pending pn) ->
            config (cells (react_all w acts pn)) =
              fold_left (fun c e => handleInputChange e c) (edits acts) (config (cells pn))).
  { unfold react_all. induction acts as [| a acts IH]; intros pn Hpending; [done |].
    simpl.
    assert (Hstep : (forall e, a <> Change e) ->
              config (cells (react w a pn)) = config (cells pn) /\
              Forall (every not_setConfig) (pending (react w a pn))).
    { intros Ha.
      apply (react_every not_setConfig (fun s => config s = config (cells pn)));
        [| by apply handlers_do_not_set_config | done | done].
      intros X c w' n s Hc Hs. by destruct c. }
    destruct a as [| | | e | i];
      try (destruct Hstep as [Hcfg Hpending']; [done |];
           rewrite IH by done; by rewrite Hcfg).
    by rewrite IH. }
  apply Hinv. constructor.
Qed.

End PanelInvariants.

(** ** What the panel shows *)

Section Shown.
Context `{Engine}.

Lemma get_prop_defined (v : jsval) (name : string) :
  v <> VNull -> v <> VUndefined -> exists x, get_prop v name = inr x.
Proof. destruct v; simpl; try done; by eexists. Qed.

Lemma get_prop_truthy (v : jsval) (name : string) :
  truthy v = true -> exists x, get_prop v name = inr x.
Proof. intros Hv. apply get_prop_defined; by intros ->. Qed.

(** While [isLoading] is true both buttons are disabled and show their
    busy text; while it is false exactly one of them is enabled: start
    when [botStatus.running] is falsy, stop when it is truthy. *)
Theorem buttons_follow_flag_and_running (s : ui) (a : app_view) :
  render_app s = inr a ->
  (isLoading s = true ->
     start_disabled (controls a) = true /\ stop_disabled (controls a) = true /\
     start_text a = "⏳ Запуск..." /\ stop_text a = "⏳ Остановка...") /\
  (isLoading s = false ->
     exists running, get_prop (botStatus s) "running" = inr running /\
       start_disabled (controls a) = truthy running /\
       stop_disabled (controls a) = negb (truthy running)).
Proof.
  unfold render_app. intros Hrender.
  destruct (render s) as [e | v] eqn:Hv; [done |]. cbn [and_then] in Hrender.
  destruct (check_children (status_grid v)) as [e | []]; [done |].
  cbn [and_then] in Hrender.
  destruct (render_orders (botStatus s)) as [e | o]; [done |].
  injection Hrender as <-. simpl.
  unfold render, disabled_attr in Hv.
  destruct (isLoading s), (botStatus s); simpl in Hv; try discriminate;
    injection Hv as <-; simpl; (split; [done |]); intros Hidle;
    try discriminate; by eexists.
Qed.

Lemma render_grid (s : ui) (v : view) :
  render s = inr v ->
  exists running symbol best_bid best_ask spread initial_price,
    get_prop (botStatus s) "running" = inr running /\
    get_prop (botStatus s) "symbol" = inr symbol /\
    get_prop (botStatus s) "best_bid" = inr best_bid /\
    get_prop (botStatus s) "best_ask" = inr best_ask /\
    get_prop (botStatus s) "spread" = inr spread /\
    get_prop (botStatus s) "initial_price" = inr initial_price /\
    status_grid v =
      [ StatusItem "Состояние:"
          (VStr (if truthy running then "🟢 Работает" else "🔴 Остановлен"));
        guarded symbol "Пара:";
        guarded best_bid "Лучшая покупка:";
        guarded best_ask "Лучшая продажа:";
        guarded spread "Спред:";
        guarded initial_price "Начальная цена:" ].
Proof.
  unfold render. intros Hrender.
  destruct (disabled_attr (isLoading s) (botStatus s) false) as [e | d1]; [done |].
  destruct (disabled_attr (isLoading s) (botStatus s) true) as [e | d2]; [done |].
  cbn [and_then] in Hrender.
  destruct (get_prop (botStatus s) "running") as [e | running]; [done |].
  destruct (get_prop (botStatus s) "symbol") as [e | symbol]; [done |].
  destruct (get_prop (botStatus s) "best_bid") as [e | best_bid]; [done |].
  destruct (get_prop (botStatus s) "best_ask") as [e | best_ask]; [done |].
  destruct (get_prop (botStatus s) "spread") as [e | spread]; [done |].
  destruct (get_prop (botStatus s) "initial_price") as [e | initial_price]; [done |].
  cbn [and_then] in Hrender. injection Hrender as <-.
  by eexists _, _, _, _, _, _.
Qed.

(** The grid always has the item of the state, and it has the item of an
    optional field exactly when the value of that field is truthy: a
    missing field, an empty string, a zero and a NaN are all left out. *)
Theorem grid_displays_truthy_fields (s : ui) (v : view) :
  render s = inr v ->
  displays v "Состояние:" = true /\
  Forall (fun '(field, label) =>
            exists x, get_prop (botStatus s) field = inr x /\
                      displays v label = truthy x /\
                      (truthy x = true -> StatusItem label x ∈ status_grid v))
         optional_fields.
Proof.
  intros Hrender.
  destruct (render_grid s v Hrender)
    as (running & symbol & best_bid & best_ask & spread & initial_price &
        Hrunning & Hsymbol & Hbid & Hask & Hspread & Hinitial & Hgrid).
  unfold displays. rewrite Hgrid. split; [reflexivity |].
  unfold optional_fields, guarded.
  repeat apply Forall_cons_2; try apply Forall_nil_2;
    eexists; (split; [eassumption |]);
    destruct (truthy symbol) eqn:?, (truthy best_bid) eqn:?, (truthy best_ask) eqn:?,
             (truthy spread) eqn:?, (truthy initial_price) eqn:?;
    (split; [vm_compute; reflexivity |]); intros Htruthy; try discriminate;
    rewrite !elem_of_cons; auto 10.
Qed.

Lemma render_defined (s : ui) :
  botStatus s <> VNull -> botStatus s <> VUndefined -> exists v, render s = inr v.
Proof.
  unfold render, disabled_attr. intros Hnull Hundef.
  destruct (botStatus s); try done; destruct (isLoading s); simpl; by eexists.
Qed.

Lemma unrenderable_truthy (v : jsval) : renderable v = false -> truthy v = true.
Proof. by destruct v. Qed.

(** The guard of an order, by the truthiness of the order. *)
Lemma order_guard_falsy (status order : jsval) (field cls : string) :
  get_prop status field = inr order -> truthy order = false ->
  order_guard status field cls = inr (OrderBare order).
Proof.
  intros Hget Hfalsy. unfold order_guard. rewrite Hget. cbn [and_then].
  by rewrite Hfalsy.
Qed.

Lemma order_guard_truthy (status order : jsval) (field cls : string) :
  get_prop status field = inr order -> truthy order = true ->
  exists p i,
    get_prop order "price" = inr p /\ get_prop order "orderId" = inr i /\
    order_guard status field cls =
      if renderable p && renderable i
      then inr (OrderShown (OrderItem cls p i)) else inl child_refused.
Proof.
  intros Hget Htruthy.
  destruct (get_prop_truthy order "price" Htruthy) as [p Hp].
  destruct (get_prop_truthy order "orderId" Htruthy) as [i Hi].
  exists p, i. split_and!; [done | done |].
  unfold order_guard, as_child. rewrite Hget. cbn [and_then].
  rewrite Htruthy, Hp. cbn [and_then].
  destruct (renderable p); cbn [and_then andb]; [| done]. rewrite Hi. cbn [and_then].
  by destruct (renderable i).
Qed.

(** The orders section, by the truthiness of the two orders. *)
Lemma render_orders_unfold (status buy sell : jsval) :
  get_prop status "current_buy_order" = inr buy ->
  get_prop status "current_sell_order" = inr sell ->
  render_orders status =
    if truthy buy || truthy sell then
      and_then (order_guard status "current_buy_order" "order-item buy-order") (fun b =>
      and_then (order_guard status "current_sell_order" "order-item sell-order") (fun s =>
      inr (OrdersSection b s)))
    else inr (OrdersBare sell).
Proof.
  intros Hbuy Hsell. unfold render_orders. rewrite Hbuy. simpl.
  destruct (truthy buy) eqn:Hb; simpl; [by rewrite Hb |].
  rewrite Hsell. simpl. by destruct (truthy sell).
Qed.

(** The render throws exactly when the snapshot is [null] (or
    [undefined]), or gives it an object to show, which React refuses among
    the children. A poll answered with the JSON body [null] leaves the
    panel in the first of these states, and a click then runs nothing. *)
Theorem render_fails_on_null_snapshot :
  (forall s, (exists e, render_app s = inl e) <->
             botStatus s = VNull \/ botStatus s = VUndefined \/
             shows_object (botStatus s)) /\
  (forall w n s resp,
     net w n status_request = inr resp -> json_body resp = inr VNull ->
     let s' := final (exec fetchBotStatus w n s) in
     (exists e, render_app s' = inl e) /\
     click_start s' = Ret tt /\ click_stop s' = Ret tt).
Proof.
  split.
  - intros s.
    assert (botStatus s = VNull \/ botStatus s = VUndefined \/
            (botStatus s <> VNull /\ botStatus s <> VUndefined))
      as [Hst | [Hst | [Hnull Hundef]]] by (destruct (botStatus s); auto).
    { split; [by left |]. intros _. unfold render_app, render, disabled_attr.
      rewrite Hst. destruct (isLoading s); simpl; by eexists. }
    { split; [by right; left |]. intros _. unfold render_app, render, disabled_attr.
      rewrite Hst. destruct (isLoading s); simpl; by eexists. }
    destruct (render_defined s Hnull Hundef) as [v Hv].
    destruct (render_grid s v Hv)
      as (running & symbol & best_bid & best_ask & spread & initial_price &
          Hrunning & Hsymbol & Hbid & Hask & Hspread & Hinitial & Hgrid).
    destruct (get_prop_defined (botStatus s) "current_buy_order" Hnull Hundef)
      as [buy Hbuy].
    destruct (get_prop_defined (botStatus s) "current_sell_order" Hnull Hundef)
      as [sell Hsell].
    assert (Hchild : forall x label, child_value (guarded x label) = x).
    { intros x label. unfold guarded. by destruct (truthy x). }
    unfold render_app. rewrite Hv. cbn [and_then]. rewrite Hgrid.
    cbn [check_children child_value]. rewrite !Hchild. unfold as_child at 1.
    cbn [renderable and_then].
    rewrite (render_orders_unfold _ buy sell Hbuy Hsell).
    split.
    + (* the render throws: one of the shown values is refused *)
      intros [e He]. right. right.
      unfold as_child in He.
      destruct (renderable symbol) eqn:R1;
        [| left; exists "symbol", "Пара:", symbol; split_and!;
           [set_solver | done | by apply unrenderable_truthy | done]].
      destruct (renderable best_bid) eqn:R2;
        [| left; exists "best_bid", "Лучшая покупка:", best_bid; split_and!;
           [set_solver | done | by apply unrenderable_truthy | done]].
      destruct (renderable best_ask) eqn:R3;
        [| left; exists "best_ask", "Лучшая продажа:", best_ask; split_and!;
           [set_solver | done | by apply unrenderable_truthy | done]].
      destruct (renderable spread) eqn:R4;
        [| left; exists "spread", "Спред:", spread; split_and!;
           [set_solver | done | by apply unrenderable_truthy | done]].
      destruct (renderable initial_price) eqn:R5;
        [| left; exists "initial_price", "Начальная цена:", initial_price; split_and!;
           [set_solver | done | by apply unrenderable_truthy | done]].
      cbn [and_then] in He. right.
      destruct (truthy buy) eqn:Hb.
      * destruct (order_guard_truthy _ _ _ "order-item buy-order" Hbuy Hb)
          as (p & i & Hp & Hi & Hguard).
        destruct (renderable p) eqn:Rp;
          [| exists "current_buy_order", "price", buy, p; split_and!;
             [set_solver | set_solver | done | done | done | done]].
        destruct (renderable i) eqn:Ri;
          [| exists "current_buy_order", "orderId", buy, i; split_and!;
             [set_solver | set_solver | done | done | done | done]].
        cbn [orb andb] in He, Hguard. rewrite Hguard in He. cbn [and_then] in He.
        destruct (truthy sell) eqn:Hs.
        -- destruct (order_guard_truthy _ _ _ "order-item sell-order" Hsell Hs)
             as (p' & i' & Hp' & Hi' & Hguard').
           destruct (renderable p') eqn:Rp';
             [| exists "current_sell_order", "price", sell, p'; split_and!;
                [set_solver | set_solver | done | done | done | done]].
           destruct (renderable i') eqn:Ri';
             [| exists "current_sell_order", "orderId", sell, i'; split_and!;
                [set_solver | set_solver | done | done | done | done]].
           cbn [andb] in Hguard'. by rewrite Hguard' in He.
        -- by rewrite (order_guard_falsy _ _ _ "order-item sell-order" Hsell Hs) in He.
      * cbn [orb] in He. destruct (truthy sell) eqn:Hs; [| done].
        rewrite (order_guard_falsy _ _ _ "order-item buy-order" Hbuy Hb) in He.
        cbn [and_then] in He.
        destruct (order_guard_truthy _ _ _ "order-item sell-order" Hsell Hs)
          as (p' & i' & Hp' & Hi' & Hguard').
        destruct (renderable p') eqn:Rp';
          [| exists "current_sell_order", "price", sell, p'; split_and!;
             [set_solver | set_solver | done | done | done | done]].
        destruct (renderable i') eqn:Ri';
          [| exists "current_sell_order", "orderId", sell, i'; split_and!;
             [set_solver | set_solver | done | done | done | done]].
        cbn [andb] in Hguard'. by rewrite Hguard' in He.
    + (* one of the shown values is refused: the render throws *)
      intros [Hst | [Hst | Hshown]]; [done | done |].
      unfold as_child.
      destruct Hshown as [(field & label & x & Hin & Hget & Htruthy & Hrefused)
                         | (field & name & order & x & Hin & Hname & Hget & Htruthy
                            & Hx & Hrefused)].
      * unfold optional_fields in Hin.
        repeat (apply elem_of_cons in Hin as [[= -> ->] | Hin];
                [rewrite Hget in *; simplify_eq;
                 repeat (match goal with
                         | |- context [renderable ?y] =>
                             destruct (renderable y) eqn:?; cbn [and_then];
                             try discriminate
                         end; try by eexists) |]).
        by apply elem_of_nil in Hin.
      * repeat (match goal with
                | |- context [if renderable ?y then _ else _] =>
                    destruct (renderable y); cbn [and_then]; [| by eexists]
                end).
        apply elem_of_cons in Hin as [-> | Hin];
          [| apply list_elem_of_singleton in Hin as ->].
        -- rewrite Hbuy in Hget. injection Hget as <-. rewrite Htruthy. cbn [orb].
           destruct (order_guard_truthy _ _ _ "order-item buy-order" Hbuy Htruthy)
             as (p & i & Hp & Hi & ->).
           apply elem_of_cons in Hname as [-> | Hname];
             [| apply list_elem_of_singleton in Hname as ->].
           ++ rewrite Hp in Hx. injection Hx as ->. rewrite Hrefused. by eexists.
           ++ rewrite Hi in Hx. injection Hx as ->. rewrite Hrefused, andb_false_r.
              by eexists.
        -- rewrite Hsell in Hget. injection Hget as <-. rewrite Htruthy, orb_true_r.
           destruct (order_guard_truthy _ _ _ "order-item sell-order" Hsell Htruthy)
             as (p & i & Hp & Hi & Hguard).
           assert (order_guard (botStatus s) "current_sell_order" "order-item sell-order"
                   = inl child_refused) as ->.
           { rewrite Hguard.
             apply elem_of_cons in Hname as [-> | Hname];
               [| apply list_elem_of_singleton in Hname as ->].
             - rewrite Hp in Hx. injection Hx as ->. by rewrite Hrefused.
             - rewrite Hi in Hx. injection Hx as ->. by rewrite Hrefused, andb_false_r. }
           destruct (order_guard _ "current_buy_order" _); by eexists.
  - intros w n s resp Hnet Hjson s'. subst s'.
    rewrite exec_fetchBotStatus, Hnet, Hjson. simpl.
    unfold click_start, click_stop, render_app, render, disabled_attr. simpl.
    destruct (isLoading s); simpl; split_and!; try done; by eexists.
Qed.

(** With a snapshot that is an object: the orders section is there exactly
    when one of the two orders is truthy, and in it each order has its
    item exactly when it is truthy, showing what its [price] and [orderId]
    read. The section throws exactly when one of these values, of a truthy
    order, is an object that React refuses among the children. *)
Theorem orders_section_follows_orders (status buy sell : jsval) :
  get_prop status "current_buy_order" = inr buy ->
  get_prop status "current_sell_order" = inr sell ->
  match render_orders status with
  | inl _ =>
      exists order name x,
        (order = buy \/ order = sell) /\ truthy order = true /\
        (name = "price" \/ name = "orderId") /\
        get_prop order name = inr x /\ renderable x = false
  | inr (OrdersBare v) => truthy buy = false /\ truthy sell = false /\ v = sell
  | inr (OrdersSection b s) =>
      truthy buy || truthy sell = true /\
      match b with
      | OrderShown item =>
          truthy buy = true /\ order_class item = "order-item buy-order" /\
          get_prop buy "price" = inr (order_price item) /\
          get_prop buy "orderId" = inr (order_id item) /\
          renderable (order_price item) = true /\ renderable (order_id item) = true
      | OrderBare v => truthy buy = false /\ v = buy
      end /\
      match s with
      | OrderShown item =>
          truthy sell = true /\ order_class item = "order-item sell-order" /\
          get_prop sell "price" = inr (order_price item) /\
          get_prop sell "orderId" = inr (order_id item) /\
          renderable (order_price item) = true /\ renderable (order_id item) = true
      | OrderBare v => truthy sell = false /\ v = sell
      end
  end.
Proof.
  intros Hbuy Hsell. rewrite (render_orders_unfold status buy sell Hbuy Hsell).
  destruct (truthy buy) eqn:Hb, (truthy sell) eqn:Hs; cbn [orb].
  - destruct (order_guard_truthy _ _ _ "order-item buy-order" Hbuy Hb)
      as (p & i & Hp & Hi & ->).
    destruct (order_guard_truthy _ _ _ "order-item sell-order" Hsell Hs)
      as (p' & i' & Hp' & Hi' & ->).
    destruct (renderable p) eqn:Rp; cbn [andb and_then];
      [| exists buy, "price", p; by split_and!; auto].
    destruct (renderable i) eqn:Ri; cbn [andb and_then];
      [| exists buy, "orderId", i; by split_and!; auto].
    destruct (renderable p') eqn:Rp'; cbn [andb and_then];
      [| exists sell, "price", p'; by split_and!; auto].
    destruct (renderable i') eqn:Ri'; cbn [andb and_then];
      [| exists sell, "orderId", i'; by split_and!; auto].
    by split_and!.
  - destruct (order_guard_truthy _ _ _ "order-item buy-order" Hbuy Hb)
      as (p & i & Hp & Hi & ->).
    rewrite (order_guard_falsy _ _ _ "order-item sell-order" Hsell Hs).
    destruct (renderable p) eqn:Rp; cbn [andb and_then];
      [| exists buy, "price", p; by split_and!; auto].
    destruct (renderable i) eqn:Ri; cbn [andb and_then];
      [| exists buy, "orderId", i; by split_and!; auto].
    by split_and!.
  - rewrite (order_guard_falsy _ _ _ "order-item buy-order" Hbuy Hb).
    destruct (order_guard_truthy _ _ _ "order-item sell-order" Hsell Hs)
      as (p' & i' & Hp' & Hi' & ->).
    cbn [and_then].
    destruct (renderable p') eqn:Rp'; cbn [andb and_then];
      [| exists sell, "price", p'; by split_and!; auto].
    destruct (renderable i') eqn:Ri'; cbn [andb and_then];
      [| exists sell, "orderId", i'; by split_and!; auto].
    by split_and!.
  - by split_and!.
Qed.

(** The items of the log list are keyed by position. When an entry is
    added to a full log, the list still has 100 items, the new entry is
    the last, and every older entry moves up by one key. *)
Theorem log_list_shifts_on_full_log (prev : list log_entry) (entry : log_entry) :
  length prev = 100 ->
  exists items items',
    render_logs prev = LogItems items /\
    render_logs (push_log prev entry) = LogItems items' /\
    length items' = 100 /\
    items' !! 99 = Some (LogItem 99 ("log-item " ++ log_type entry)
                                 (timestamp entry) (log_message entry)) /\
    forall i it, i < 99 -> items !! (S i) = Some it ->
      items' !! i = Some (LogItem i (item_class it) (item_time it) (item_message it)).
Proof.
  intros Hlen.
  assert (Hpush : push_log prev entry = (drop 1 prev ++ [entry])%list).
  { unfold push_log, slice_last. by rewrite Hlen. }
  assert (Hlen' : length (push_log prev entry) = 100).
  { rewrite push_log_length, Hlen. done. }
  unfold render_logs. rewrite Hlen, Hlen'. simpl.
  eexists _, _. split_and!; [reflexivity | reflexivity | | |].
  - by rewrite length_imap.
  - rewrite list_lookup_imap, Hpush, lookup_app_r by (rewrite length_drop; lia).
    rewrite length_drop, Hlen. done.
  - intros i it Hi Hit. rewrite list_lookup_imap in Hit.
    rewrite list_lookup_imap, Hpush, lookup_app_l by (rewrite length_drop; lia).
    rewrite lookup_drop. simpl.
    destruct (prev !! S i) as [log |]; simplify_eq/=. done.
Qed.

End Shown.

(** ** The further properties at the sample data *)

Lemma fetchBotStatus_failure_is_silent_witness :
  let r := exec fetchBotStatus unreachable_world 0 initial_ui in
  final r = initial_ui /\ log_updates (trace r) = [] /\
  exists e, console (trace r) = [(poll_label, e)].
Proof.
  apply (fetchBotStatus_failure_is_silent unreachable_world 0 initial_ui).
  intros resp Hnet. discriminate Hnet.
Defined.

Lemma stopBot_logs_outcome_witness :
  (let r := exec (@stopBot sample_engine) accepting_world 0 initial_ui in
   logs (final r) = [LogEntry "12:00:00" "Бот остановлен" "success"] /\
   requests (trace r) = [stop_request; status_request]) /\
  (let rejection := Response 409 (inr (VObj [("detail", VStr "not running")])) in
   let r := exec (@stopBot sample_engine) (constant_world rejection) 0 initial_ui in
   logs (final r) = [LogEntry "12:00:00" "Ошибка остановки: not running" "error"] /\
   requests (trace r) = [stop_request]).
Proof.
  split.
  - destruct (@stopBot_logs_outcome sample_engine accepting_world 0 initial_ui
                _ _ eq_refl eq_refl) as [Hok _].
    destruct (Hok eq_refl) as (Hlogs & _ & Hreq). exact (conj Hlogs Hreq).
  - destruct (@stopBot_logs_outcome sample_engine
                (constant_world (Response 409 (inr (VObj [("detail", VStr "not running")]))))
                0 initial_ui _ _ eq_refl eq_refl) as [_ Hrej].
    destruct (Hrej "not running" eq_refl eq_refl) as (Hlogs & _ & Hreq).
    exact (conj Hlogs Hreq).
Defined.

Lemma lifecycle_connection_error_witness :
  keys_missing sample_config = false /\
  logs (final (exec (@startBot sample_engine sample_config) unreachable_world 0 initial_ui)) =
    [LogEntry "12:00:00" "Ошибка соединения: Failed to fetch" "error"] /\
  requests (trace (exec (@stopBot sample_engine) unreachable_world 0 initial_ui)) =
    [stop_request].
Proof.
  split; [reflexivity |].
  destruct (@lifecycle_connection_error sample_engine sample_config unreachable_world 0
              initial_ui (Error "TypeError" "Failed to fetch")
              (Error "TypeError" "Failed to fetch") eq_refl
              (or_introl eq_refl) (or_introl eq_refl))
    as [(_ & Hfinal & _ & _) (_ & _ & Hreq & _)].
  split; [by rewrite Hfinal | exact Hreq].
Defined.

Lemma startBot_rejection_without_detail_witness :
  let r := exec (@startBot sample_engine sample_config)
             (constant_world (Response 500 (inr VNull))) 0 initial_ui in
  ok (Response 500 (inr VNull)) = false /\
  logs (final r) =
    [LogEntry "12:00:00"
       "Ошибка соединения: Cannot read properties of null (reading 'detail')" "error"].
Proof.
  split; [reflexivity |].
  destruct (@startBot_rejection_without_detail sample_engine sample_config
              (constant_world (Response 500 (inr VNull))) 0 initial_ui
              (Response 500 (inr VNull)) VNull eq_refl eq_refl eq_refl eq_refl)
    as (_ & Hnull & _).
  exact (Hnull eq_refl).
Defined.

Lemma startBot_sends_iff_keys_present_witness :
  config_get sample_config "api_key" = VStr "k1" /\
  requests (trace (exec (@startBot sample_engine sample_config)
                     accepting_world 0 initial_ui)) <> [].
Proof.
  split; [reflexivity |].
  apply (@startBot_sends_iff_keys_present sample_engine sample_config accepting_world 0
           initial_ui "k1" "s1" eq_refl eq_refl).
  split; discriminate.
Defined.

Lemma addLog_keeps_last_100_witness :
  let s := set_logs full_log initial_ui in
  let r := exec (in_sequence (map (fun c => addLog c.1 c.2) sample_calls))
             accepting_world 0 s in
  length (logs s) <= 100 /\ length (logs (final r)) = 100.
Proof.
  assert (Hlen : length (logs (set_logs full_log initial_ui)) <= 100)
    by (vm_compute; lia).
  split; [exact Hlen |].
  exact (proj2 (addLog_keeps_last_100 sample_calls accepting_world 0
                  (set_logs full_log initial_ui) Hlen)).
Defined.

Lemma buttons_follow_flag_and_running_witness :
  let s := set_botStatus trading_status initial_ui in
  exists a, @render_app sample_engine s = inr a /\
    exists running, @get_prop sample_engine (botStatus s) "running" = inr running /\
      start_disabled (controls a) = truthy running /\
      stop_disabled (controls a) = negb (truthy running).
Proof.
  eexists. split; [reflexivity |].
  exact (proj2 (@buttons_follow_flag_and_running sample_engine
                  (set_botStatus trading_status initial_ui) _ eq_refl) eq_refl).
Defined.

Lemma grid_displays_truthy_fields_witness :
  let s := set_botStatus trading_status initial_ui in
  exists v, @render sample_engine s = inr v /\ displays v "Состояние:" = true.
Proof.
  eexists. split; [reflexivity |].
  exact (proj1 (@grid_displays_truthy_fields sample_engine
                  (set_botStatus trading_status initial_ui) _ eq_refl)).
Defined.

Lemma orders_section_follows_orders_witness :
  let buy := VObj [("price", VStr "0.9"); ("orderId", VStr "A1")] in
  @get_prop sample_engine trading_status "current_buy_order" = inr buy /\
  @get_prop sample_engine trading_status "current_sell_order" = inr VUndefined /\
  @render_orders sample_engine trading_status =
    inr (OrdersSection (OrderShown (OrderItem "order-item buy-order" (VStr "0.9") (VStr "A1")))
                       (OrderBare VUndefined)) /\
  truthy buy = true.
Proof.
  split_and!; [reflexivity | reflexivity | reflexivity |].
  pose proof (@orders_section_follows_orders sample_engine trading_status _ _
                eq_refl eq_refl) as Hspec.
  exact (proj1 (proj1 (proj2 Hspec))).
Defined.

Lemma log_list_shifts_on_full_log_witness :
  length full_log = 100 /\
  exists items',
    render_logs (push_log full_log (LogEntry "12:00:01" "new" "error")) = LogItems items' /\
    items' !! 99 = Some (LogItem 99 "log-item error" "12:00:01" "new").
Proof.
  split; [reflexivity |].
  destruct (log_list_shifts_on_full_log full_log (LogEntry "12:00:01" "new" "error")
              eq_refl) as (items & items' & _ & Hview & _ & Hlast & _).
  exists items'. exact (conj Hview Hlast).
Defined.
